(** * Room relay and snapshot store of [server.ts]

    A shallow embedding of the server of the ai-detective repository:
    the WebSocket relay (the [clients] registry and the ["connection"],
    ["message"] and ["close"] listeners) and the snapshot API
    ([POST /api/rooms], [GET /api/rooms/:code], [PUT /api/rooms/:code]).

    [server.ts] holds two revisions of the server.  The relay is the same
    text in both; the snapshot API differs: the first revision (lines
    1-157) always talks to the MongoDB model, the second (lines 158-317)
    adds the [localRooms] fallback.  They are embedded as [Rev1] and
    [Rev2]. *)

From Stdlib Require Import Ascii String ZArith.
From stdpp Require Import gmap strings list fin_maps pretty.

Local Open Scope string_scope.

(** ** The [JSON] builtins

    [JSON.parse] and [JSON.stringify] belong to the language, not to the
    repository.  The handlers are written against this interface; every
    general theorem holds for any implementation of it.  [JSON_parse]
    returns [None] where [JSON.parse] throws a [SyntaxError];
    [JSON_is_null v] is the test [v === null] on a parsed value. *)

Class JSON := {
  value : Type;
  JSON_parse : string → option value;
  JSON_stringify : value → string;
  JSON_is_null : value → bool;
}.

(** ** A reference implementation of the builtins

    Used only to evaluate the handlers on concrete frames.  It covers the
    JSON grammar restricted to: insignificant white space, [null], [true],
    [false], integer literals, strings without escape sequences, arrays,
    and objects with distinct, non-numeric keys.  Texts outside this
    fragment are rejected, so the instance is only applied to texts inside
    the fragment and to texts that no JSON grammar accepts. *)

Module RefJSON.

#[local] Unset Elimination Schemes.
Inductive json :=
| JNull
| JBool (b : bool)
| JNum (z : Z)
| JStr (s : string)
| JArr (l : list json)
| JObj (l : list (string * json)).
#[local] Set Elimination Schemes.

Definition dquote : ascii := "034"%char.
Definition backslash : ascii := "092"%char.

Definition quote (s : string) : string :=
  String dquote (s ++ String dquote EmptyString).

Definition is_ws (a : ascii) : bool :=
  (a =? " ")%char || (a =? "009")%char || (a =? "010")%char || (a =? "013")%char.

Definition is_digit (a : ascii) : bool :=
  let n := nat_of_ascii a in (48 <=? n)%nat && (n <=? 57)%nat.

Fixpoint skip_ws (s : string) : string :=
  match s with
  | String a r => if is_ws a then skip_ws r else s
  | EmptyString => s
  end.

Fixpoint strip_prefix (p s : string) : option string :=
  match p, s with
  | EmptyString, _ => Some s
  | String a p', String b s' => if (a =? b)%char then strip_prefix p' s' else None
  | String _ _, EmptyString => None
  end.

(** The characters of a string literal after its opening quote, up to the
    closing quote. *)
Fixpoint scan_string (s : string) : option (string * string) :=
  match s with
  | EmptyString => None
  | String a r =>
      if (a =? dquote)%char then Some (EmptyString, r)
      else if (a =? backslash)%char then None
      else if (nat_of_ascii a <? 32)%nat then None
      else match scan_string r with
           | Some (body, rest) => Some (String a body, rest)
           | None => None
           end
  end.

Fixpoint scan_digits (acc : Z) (s : string) : Z * string :=
  match s with
  | String a r =>
      if is_digit a
      then scan_digits (10 * acc + Z.of_nat (nat_of_ascii a - 48)) r
      else (acc, s)
  | EmptyString => (acc, s)
  end.

Definition ends_number (s : string) : bool :=
  match s with
  | String a _ => negb ((a =? ".")%char || (a =? "e")%char || (a =? "E")%char)
  | EmptyString => true
  end.

(** [int] of the JSON grammar: a single [0], or a non-zero digit followed
    by digits. *)
Definition scan_nat (s : string) : option (Z * string) :=
  match s with
  | String a r =>
      if (a =? "0")%char then
        match r with
        | String b _ => if is_digit b then None else
                        if ends_number r then Some (0%Z, r) else None
        | EmptyString => Some (0%Z, r)
        end
      else if is_digit a then
        let '(z, rest) := scan_digits 0 s in
        if ends_number rest then Some (z, rest) else None
      else None
  | EmptyString => None
  end.

Fixpoint parse_value (fuel : nat) (s : string) : option (json * string) :=
  match fuel with
  | O => None
  | S fuel =>
      match skip_ws s with
      | EmptyString => None
      | String a r =>
          if (a =? "{")%char then
            match skip_ws r with
            | String b r' =>
                if (b =? "}")%char then Some (JObj [], r')
                else parse_members fuel (skip_ws r) []
            | EmptyString => None
            end
          else if (a =? "[")%char then
            match skip_ws r with
            | String b r' =>
                if (b =? "]")%char then Some (JArr [], r')
                else parse_elements fuel (skip_ws r) []
            | EmptyString => None
            end
          else if (a =? dquote)%char then
            match scan_string r with
            | Some (body, rest) => Some (JStr body, rest)
            | None => None
            end
          else if (a =? "-")%char then
            match scan_nat r with
            | Some (z, rest) => Some (JNum (- z), rest)
            | None => None
            end
          else if is_digit a then
            match scan_nat (String a r) with
            | Some (z, rest) => Some (JNum z, rest)
            | None => None
            end
          else
            match strip_prefix "null" (String a r) with
            | Some rest => Some (JNull, rest)
            | None =>
                match strip_prefix "true" (String a r) with
                | Some rest => Some (JBool true, rest)
                | None =>
                    match strip_prefix "false" (String a r) with
                    | Some rest => Some (JBool false, rest)
                    | None => None
                    end
                end
            end
      end
  end
with parse_elements (fuel : nat) (s : string) (acc : list json)
    : option (json * string) :=
  match fuel with
  | O => None
  | S fuel =>
      match parse_value fuel s with
      | Some (v, r) =>
          match skip_ws r with
          | String a r' =>
              if (a =? ",")%char then parse_elements fuel r' (v :: acc)
              else if (a =? "]")%char then Some (JArr (rev (v :: acc)), r')
              else None
          | EmptyString => None
          end
      | None => None
      end
  end
with parse_members (fuel : nat) (s : string) (acc : list (string * json))
    : option (json * string) :=
  match fuel with
  | O => None
  | S fuel =>
      match skip_ws s with
      | String a r =>
          if (a =? dquote)%char then
            match scan_string r with
            | Some (key, rest) =>
                match skip_ws rest with
                | String b rest' =>
                    if (b =? ":")%char then
                      match parse_value fuel rest' with
                      | Some (v, r1) =>
                          match skip_ws r1 with
                          | String d r2 =>
                              if (d =? ",")%char
                              then parse_members fuel r2 ((key, v) :: acc)
                              else if (d =? "}")%char
                              then Some (JObj (rev ((key, v) :: acc)), r2)
                              else None
                          | EmptyString => None
                          end
                      | None => None
                      end
                    else None
                | EmptyString => None
                end
            | None => None
            end
          else None
      | EmptyString => None
      end
  end.

Definition parse (s : string) : option json :=
  match parse_value (2 * String.length s + 2) s with
  | Some (v, rest) =>
      match skip_ws rest with
      | EmptyString => Some v
      | String _ _ => None
      end
  | None => None
  end.

Fixpoint join (sep : string) (l : list string) : string :=
  match l with
  | [] => ""
  | [x] => x
  | x :: l' => x ++ sep ++ join sep l'
  end.

Fixpoint stringify (v : json) : string :=
  match v with
  | JNull => "null"
  | JBool true => "true"
  | JBool false => "false"
  | JNum z => pretty z
  | JStr s => quote s
  | JArr l => "[" ++ join "," (map stringify l) ++ "]"
  | JObj l =>
      "{" ++ join "," (map (λ kv, quote (fst kv) ++ ":" ++ stringify (snd kv)) l)
          ++ "}"
  end.

End RefJSON.

#[local] Instance RefJSON_JSON : JSON := {|
  value := RefJSON.json;
  JSON_parse := RefJSON.parse;
  JSON_stringify := RefJSON.stringify;
  JSON_is_null := λ v, match v with RefJSON.JNull => true | _ => false end;
|}.

(** ** State of the relay

    A [WebSocket] object is identified by the order in which the
    ["connection"] events created them.  [clients] is the
    [Map<string, Set<WebSocket>>] of the source: the order in which
    [forEach] visits a [Set] does not show in what each socket is sent,
    so the sets are [gset]s. *)

Abbreviation conn := nat.

(** [WebSocket.readyState] *)
Inductive ReadyState := CONNECTING | OPEN | CLOSING | CLOSED.

#[global] Instance ReadyState_eq_dec : EqDecision ReadyState.
Proof. solve_decision. Defined.

Record Relay := mkRelay {
  clients : gmap string (gset conn);
  (** [ws.readyState] of every socket created so far *)
  ws_readyState : gmap conn ReadyState;
  (** the frames passed to [ws.send], oldest first *)
  sent : gmap conn (list string);
  (** the sockets whose ["message"] and ["close"] listeners are installed,
      with the [code] their closures captured *)
  listeners : gmap conn string;
  (** identity of the next socket *)
  next_ws : conn;
}.

Definition set_clients (f : gmap string (gset conn) → gmap string (gset conn))
    (r : Relay) : Relay :=
  mkRelay (f (clients r)) (ws_readyState r) (sent r) (listeners r) (next_ws r).

Definition set_ws_readyState (f : gmap conn ReadyState → gmap conn ReadyState)
    (r : Relay) : Relay :=
  mkRelay (clients r) (f (ws_readyState r)) (sent r) (listeners r) (next_ws r).

Definition set_sent (f : gmap conn (list string) → gmap conn (list string))
    (r : Relay) : Relay :=
  mkRelay (clients r) (ws_readyState r) (f (sent r)) (listeners r) (next_ws r).

Definition set_listeners (f : gmap conn string → gmap conn string)
    (r : Relay) : Relay :=
  mkRelay (clients r) (ws_readyState r) (sent r) (f (listeners r)) (next_ws r).

Definition set_next_ws (f : conn → conn) (r : Relay) : Relay :=
  mkRelay (clients r) (ws_readyState r) (sent r) (listeners r) (f (next_ws r)).

(** [const clients = new Map<string, Set<WebSocket>>()] *)
Definition relay_init : Relay := mkRelay ∅ ∅ ∅ ∅ 0.

(** What [ws] has been sent so far. *)
Definition frames (r : Relay) (ws : conn) : list string :=
  default [] (sent r !! ws).

(** [ws] is a member of some set of the registry. *)
Definition registered (r : Relay) (ws : conn) : Prop :=
  ∃ c s, clients r !! c = Some s ∧ ws ∈ s.

(** [ws] is a member of the set of [c]. *)
Definition registered_under (r : Relay) (c : string) (ws : conn) : Prop :=
  ∃ s, clients r !! c = Some s ∧ ws ∈ s.

#[global] Instance registered_under_dec r c ws : Decision (registered_under r c ws).
Proof.
  unfold registered_under. destruct (clients r !! c) as [s|].
  - destruct (decide (ws ∈ s)) as [Hy|Hn].
    + left. by exists s.
    + right. intros (s' & [= <-] & Hy). done.
  - right. intros (s' & Hs & _). done.
Defined.

(** A listener either returns or throws. *)
Inductive Exn :=
| SyntaxError          (* [JSON.parse] on a text that is not JSON *)
| ValidationError      (* mongoose: a [required] path is missing *)
| DuplicateKeyError    (* MongoDB E11000 on the [unique] index of [code] *)
| BufferTimeout.       (* mongoose: operation buffered without a connection *)

Inductive Result (A : Type) :=
| Ok (a : A)
| Throw (e : Exn).
Arguments Ok {A} a.
Arguments Throw {A} e.

(** JavaScript truthiness of a [string | null]: [null] and the empty
    string are falsy. *)
Definition truthy (s : option string) : bool :=
  match s with
  | None => false
  | Some s => negb (String.eqb s "")
  end.

(** [ws.close()]: a socket that is not yet closed starts closing. *)
Definition ws_close (ws : conn) (r : Relay) : Relay :=
  match ws_readyState r !! ws with
  | Some CLOSED => r
  | _ => set_ws_readyState <[ws := CLOSING]> r
  end.

(** [client.send(frame)] *)
Definition ws_send (client : conn) (frame : string) (r : Relay) : Relay :=
  set_sent <[client := (frames r client ++ [frame])%list]> r.

(** [set.forEach(f)] *)
Definition forEach (f : conn → Relay → Relay) (s : gset conn) (r : Relay) : Relay :=
  foldl (λ acc client, f client acc) r (elements s).

Section Handlers.
Context `{J : JSON}.

(** [wss.on("connection", (ws, req) => ...)], lines 118-131 (279-292), up
    to the installation of the listeners.  [code] is the result of
    [url.searchParams.get("code")]: [None] for [null], the parameter is
    not in the query; [Some ""] for [?code=].  The parsing of the request
    URL itself is not modelled. *)
Definition on_connection (ws : conn) (code : option string) (r : Relay) : Relay :=
  match code with
  | Some c =>
      if truthy code then
        let r1 :=
          if decide (is_Some (clients r !! c)) then r
          else set_clients <[c := ∅]> r in
        let r2 :=
          set_clients (λ m, <[c := default ∅ (m !! c) ∪ {[ws]}]> m) r1 in
        set_listeners <[ws := c]> r2
      else ws_close ws r
  | None => ws_close ws r
  end.

(** [ws.on("message", (message) => ...)], lines 132-143 (293-303), for the
    closure variables [code] and [ws]. *)
Definition on_message (code : string) (ws : conn) (message : string)
    (r : Relay) : Result Relay :=
  match JSON_parse message with
  | None => Throw SyntaxError
  | Some data =>
      match clients r !! code with
      | Some roomClients =>
          Ok (forEach
                (λ client acc,
                   if decide (client ≠ ws ∧ ws_readyState acc !! client = Some OPEN)
                   then ws_send client (JSON_stringify data) acc
                   else acc)
                roomClients r)
      | None => Ok r
      end
  end.

(** [ws.on("close", () => ...)], lines 145-153 (305-313). *)
Definition on_close (code : string) (ws : conn) (r : Relay) : Relay :=
  match clients r !! code with
  | Some roomClients =>
      let roomClients' := roomClients ∖ {[ws]} in
      let r1 := set_clients <[code := roomClients']> r in
      if decide (size roomClients' = 0)
      then set_clients (delete code) r1
      else r1
  | None => r
  end.

End Handlers.

(** ** The snapshot store

    [mongoose.connection.readyState]: 0, 1, 2, 3. *)
Inductive MongooseState := disconnected | connected | connecting | disconnecting.

#[global] Instance MongooseState_eq_dec : EqDecision MongooseState.
Proof. solve_decision. Defined.

Inductive Level := LOG | WARN | ERROR.

Section Store.
Context `{J : JSON}.

(** A document of [roomSchema]; an entry of [localRooms] is the object
    [{ code, mode, data }] and has no [createdAt]. *)
Record RoomDoc := mkRoomDoc {
  room_code : string;
  room_mode : string;
  room_data : value;
  room_createdAt : option nat;
}.

Record Store := mkStore {
  (** the [rooms] collection of the database; it outlives the process *)
  db : gmap string RoomDoc;
  mongoose_readyState : MongooseState;
  (** [const localRooms = new Map<string, any>()] (second revision) *)
  localRooms : gmap string RoomDoc;
  (** what was written with [console.log], [console.warn] and
      [console.error], oldest first *)
  console : list (Level * string);
}.

Definition set_db (f : gmap string RoomDoc → gmap string RoomDoc) (st : Store) : Store :=
  mkStore (f (db st)) (mongoose_readyState st) (localRooms st) (console st).

Definition set_localRooms (f : gmap string RoomDoc → gmap string RoomDoc)
    (st : Store) : Store :=
  mkStore (db st) (mongoose_readyState st) (f (localRooms st)) (console st).

Definition set_mongoose_readyState (s : MongooseState) (st : Store) : Store :=
  mkStore (db st) s (localRooms st) (console st).

Definition console_write (l : Level) (msg : string) (st : Store) : Store :=
  mkStore (db st) (mongoose_readyState st) (localRooms st) (console st ++ [(l, msg)]).

(** *** The mongoose model [Room]

    The library's behaviour on the schema of lines 15-20 (175-180).
    [save] validates the document first: [code] and [mode] are [required]
    strings, which the empty string does not satisfy, and [data] is a
    [required] path of type [Object], which [null] does not satisfy (a
    request is taken to carry a [data] field).  Then the insert is sent:
    without a connection it is buffered and fails when the buffer times
    out, and [code] carries a [unique] index.  Not part of this model:
    the TTL monitor that removes documents whose [createdAt] is too old,
    which runs in the database, and the [minimize] option, under which an
    empty [data] object is not stored; the data of the examples are
    non-empty objects. *)

Definition Room_save (now : nat) (code mode : string) (data : value)
    (st : Store) : Result Store :=
  if decide (code = "" ∨ mode = "" ∨ JSON_is_null data = true)
  then Throw ValidationError
  else if decide (mongoose_readyState st = connected) then
    if decide (is_Some (db st !! code)) then Throw DuplicateKeyError
    else Ok (set_db <[code := mkRoomDoc code mode data (Some now)]> st)
  else Throw BufferTimeout.

Definition Room_findOne (code : string) (st : Store) : Result (option RoomDoc) :=
  if decide (mongoose_readyState st = connected) then Ok (db st !! code)
  else Throw BufferTimeout.

(** [findOneAndUpdate] resolves to [null] and changes nothing when no
    document matches. *)
Definition Room_findOneAndUpdate (code : string) (update : RoomDoc → RoomDoc)
    (st : Store) : Result (option RoomDoc * Store) :=
  if decide (mongoose_readyState st = connected) then
    match db st !! code with
    | Some room => Ok (Some room, set_db <[code := update room]> st)
    | None => Ok (None, st)
    end
  else Throw BufferTimeout.

(** *** Responses *)

Inductive Body :=
| success_true                (* [{ success: true }] *)
| error_body (msg : string)   (* [{ error: msg }] *)
| room_body (room : RoomDoc). (* the room document *)

Record Response := mkResponse { status : nat; body : Body }.

(** [res.json(b)] and [res.status(n).json(b)] *)
Definition res_json (b : Body) : Response := mkResponse 200 b.
Definition res_status_json (n : nat) (b : Body) : Response := mkResponse n b.

Definition show_exn (e : Exn) : string :=
  match e with
  | SyntaxError => "SyntaxError"
  | ValidationError => "ValidationError"
  | DuplicateKeyError => "MongoServerError: E11000 duplicate key error"
  | BufferTimeout => "MongooseError: buffering timed out"
  end.

Definition set_data (data : value) (room : RoomDoc) : RoomDoc :=
  mkRoomDoc (room_code room) (room_mode room) data (room_createdAt room).

Definition set_data_createdAt (data : value) (now : nat) (room : RoomDoc) : RoomDoc :=
  mkRoomDoc (room_code room) (room_mode room) data (Some now).

End Store.

(** The process environment at startup: [process.env.MONGODB_URI], and
    whether [mongoose.connect] resolves. *)
Record Env := mkEnv {
  MONGODB_URI : option string;
  connect_resolves : bool;
}.

(** The database cannot be used: no (or an empty) connection string, or
    [mongoose.connect] rejects. *)
Definition store_unreachable (env : Env) : Prop :=
  truthy (MONGODB_URI env) = false ∨ connect_resolves env = false.

(** *** First revision, lines 1-157 *)
Module Rev1.
Section Rev1.
Context `{J : JSON}.

(** [startServer], lines 29-39, on a database holding [durable], followed
    by the [listen] callback of line 111. *)
Definition startServer (env : Env) (durable : gmap string RoomDoc) : Store :=
  let st := mkStore durable disconnected ∅ [] in
  let st :=
    if truthy (MONGODB_URI env) then
      if connect_resolves env
      then console_write LOG "Connected to MongoDB Cloud"
             (set_mongoose_readyState connected st)
      else console_write ERROR "MongoDB connection error:" st
    else console_write WARN
           "MONGODB_URI not found. Persistence will not work on Render free tier." st in
  console_write LOG "Server running on http://localhost:3000" st.

(** [app.post("/api/rooms", ...)], lines 57-67 *)
Definition post_rooms (now : nat) (code mode : string) (data : value)
    (st : Store) : Response * Store :=
  match Room_save now code mode data st with
  | Ok st' => (res_json success_true, st')
  | Throw err =>
      (res_status_json 500 (error_body "Failed to create room"),
       console_write ERROR (show_exn err) st)
  end.

(** [app.get("/api/rooms/:code", ...)], lines 69-80.  [code] is
    [req.params.code]: the route matches a non-empty path segment only,
    so the handler never runs with the empty string. *)
Definition get_rooms (code : string) (st : Store) : Response * Store :=
  match Room_findOne code st with
  | Ok (Some room) => (res_json (room_body room), st)
  | Ok None => (res_status_json 404 (error_body "Room not found"), st)
  | Throw _ => (res_status_json 500 (error_body "Server error"), st)
  end.

(** [app.put("/api/rooms/:code", ...)], lines 82-93, for a non-empty
    [req.params.code] *)
Definition put_rooms (now : nat) (code : string) (data : value)
    (st : Store) : Response * Store :=
  match Room_findOneAndUpdate code (set_data_createdAt data now) st with
  | Ok (_, st') => (res_json success_true, st')
  | Throw _ => (res_status_json 500 (error_body "Failed to update room"), st)
  end.

End Rev1.
End Rev1.

(** *** Second revision, lines 158-317 *)
Module Rev2.
Section Rev2.
Context `{J : JSON}.

(** [startServer], lines 189-199, on a database holding [durable], with
    the module-level [localRooms] of line 172 and the [listen] callback
    of line 272. *)
Definition startServer (env : Env) (durable : gmap string RoomDoc) : Store :=
  let st := mkStore durable disconnected ∅ [] in
  let st :=
    if truthy (MONGODB_URI env) then
      if connect_resolves env
      then console_write LOG "Connected to MongoDB Cloud"
             (set_mongoose_readyState connected st)
      else console_write ERROR "MongoDB connection error:" st
    else console_write WARN
           "MONGODB_URI not found. Using local memory fallback for testing." st in
  console_write LOG "Server running on http://localhost:3000" st.

(** [app.post("/api/rooms", ...)], lines 204-218 *)
Definition post_rooms (now : nat) (code mode : string) (data : value)
    (st : Store) : Response * Store :=
  if decide (mongoose_readyState st = connected) then
    match Room_save now code mode data st with
    | Ok st' => (res_json success_true, st')
    | Throw err =>
        (res_status_json 500 (error_body "Failed to create room"),
         console_write ERROR (show_exn err) st)
    end
  else
    (res_json success_true,
     set_localRooms <[code := mkRoomDoc code mode data None]> st).

(** [app.get("/api/rooms/:code", ...)], lines 220-237.  [code] is
    [req.params.code]: the route matches a non-empty path segment only,
    so the handler never runs with the empty string. *)
Definition get_rooms (code : string) (st : Store) : Response * Store :=
  let found :=
    if decide (mongoose_readyState st = connected)
    then Room_findOne code st
    else Ok (localRooms st !! code) in
  match found with
  | Ok (Some room) => (res_json (room_body room), st)
  | Ok None => (res_status_json 404 (error_body "Room not found"), st)
  | Throw _ => (res_status_json 500 (error_body "Server error"), st)
  end.

(** [app.put("/api/rooms/:code", ...)], lines 239-255, for a non-empty
    [req.params.code] *)
Definition put_rooms (now : nat) (code : string) (data : value)
    (st : Store) : Response * Store :=
  if decide (mongoose_readyState st = connected) then
    match Room_findOneAndUpdate code (set_data data) st with
    | Ok (_, st') => (res_json success_true, st')
    | Throw _ => (res_status_json 500 (error_body "Failed to update room"), st)
    end
  else
    match localRooms st !! code with
    | Some room =>
        (res_json success_true,
         set_localRooms <[code := set_data data room]> st)
    | None => (res_json success_true, st)
    end.

(** The room the snapshot store holds for [code]: the document of the
    database with a connection, the entry of [localRooms] without. *)
Definition stored (code : string) (st : Store) : option RoomDoc :=
  if decide (mongoose_readyState st = connected)
  then db st !! code
  else localRooms st !! code.

End Rev2.
End Rev2.

(** ** The process and its dispatch loop *)

Inductive Revision := rev1 | rev2.

Inductive Event `{J : JSON} :=
| WsConnection (code : option string)
    (* a client connects; [code] is [url.searchParams.get("code")] *)
| WsMessage (ws : conn) (message : string)
    (* [ws] emits ["message"] *)
| WsClosing (ws : conn)
    (* the closing handshake of [ws] starts *)
| WsClose (ws : conn)
    (* [ws] is closed and emits ["close"] *)
| HttpPost (now : nat) (code mode : string) (data : value)
| HttpGet (code : string)
| HttpPut (now : nat) (code : string) (data : value)
| MongooseChange (s : MongooseState).
    (* the connection to the database changes state *)

Section Process.
Context `{J : JSON}.

Record Process := mkProcess {
  store : Store;
  relay : Relay;
}.

(** An exception that leaves a listener is uncaught: the source installs
    no ["uncaughtException"] handler, so the process exits. *)
Inductive Outcome :=
| Running (p : Process)
| Exited (e : Exn).

Definition boot (rv : Revision) (env : Env) (durable : gmap string RoomDoc) : Process :=
  mkProcess
    (match rv with
     | rev1 => Rev1.startServer env durable
     | rev2 => Rev2.startServer env durable
     end)
    relay_init.

Definition with_store (f : Store → Response * Store) (p : Process) : Outcome :=
  Running (mkProcess (f (store p)).2 (relay p)).

Definition with_relay (f : Relay → Relay) (p : Process) : Outcome :=
  Running (mkProcess (store p) (f (relay p))).

(** The server creates the socket, open, and emits ["connection"]. *)
Definition accept (code : option string) (r : Relay) : Relay :=
  let ws := next_ws r in
  on_connection ws code
    (set_next_ws S (set_ws_readyState <[ws := OPEN]> r)).

(** A socket emits ["message"] only between its ["connection"] and its
    ["close"]. *)
Definition emits_messages (r : Relay) (ws : conn) : bool :=
  match ws_readyState r !! ws with
  | Some OPEN | Some CLOSING => true
  | _ => false
  end.

Definition step (rv : Revision) (ev : Event) (p : Process) : Outcome :=
  match ev with
  | WsConnection code => with_relay (accept code) p
  | WsMessage ws message =>
      match listeners (relay p) !! ws with
      | Some code =>
          if emits_messages (relay p) ws then
            match on_message code ws message (relay p) with
            | Ok r' => Running (mkProcess (store p) r')
            | Throw e => Exited e
            end
          else Running p
      | None => Running p
      end
  | WsClosing ws =>
      match ws_readyState (relay p) !! ws with
      | Some OPEN => with_relay (set_ws_readyState <[ws := CLOSING]>) p
      | _ => Running p
      end
  | WsClose ws =>
      match ws_readyState (relay p) !! ws with
      | Some CLOSED | None => Running p
      | Some _ =>
          let r1 := set_ws_readyState <[ws := CLOSED]> (relay p) in
          match listeners r1 !! ws with
          | Some code => Running (mkProcess (store p) (on_close code ws r1))
          | None => Running (mkProcess (store p) r1)
          end
      end
  | HttpPost now code mode data =>
      match rv with
      | rev1 => with_store (Rev1.post_rooms now code mode data) p
      | rev2 => with_store (Rev2.post_rooms now code mode data) p
      end
  | HttpGet code =>
      match rv with
      | rev1 => with_store (Rev1.get_rooms code) p
      | rev2 => with_store (Rev2.get_rooms code) p
      end
  | HttpPut now code data =>
      match rv with
      | rev1 => with_store (Rev1.put_rooms now code data) p
      | rev2 => with_store (Rev2.put_rooms now code data) p
      end
  | MongooseChange s =>
      Running (mkProcess (set_mongoose_readyState s (store p)) (relay p))
  end.

Fixpoint run (rv : Revision) (evs : list Event) (p : Process) : Outcome :=
  match evs with
  | [] => Running p
  | ev :: evs' =>
      match step rv ev p with
      | Running p' => run rv evs' p'
      | Exited e => Exited e
      end
  end.

(** The states the process can be in. *)
Inductive reachable (rv : Revision) : Process → Prop :=
| reachable_boot env durable : reachable rv (boot rv env durable)
| reachable_step ev p p' :
    reachable rv p → step rv ev p = Running p' → reachable rv p'.

(** *** Invariants of the registry *)

(** No room code is mapped to an empty set. *)
Definition no_empty_room (r : Relay) : Prop :=
  ∀ c s, clients r !! c = Some s → s ≠ ∅.

(** Every member of the set of [c] is a socket created earlier whose
    closures captured [c]. *)
Definition members_tagged (r : Relay) : Prop :=
  ∀ c s ws, clients r !! c = Some s → ws ∈ s → listeners r !! ws = Some c.

Definition listeners_known (r : Relay) : Prop :=
  ∀ ws c, listeners r !! ws = Some c → ws < next_ws r.

(** Every member of a set is a socket that is open or closing. *)
Definition members_live (r : Relay) : Prop :=
  ∀ c s ws, clients r !! c = Some s → ws ∈ s → emits_messages r ws = true.

Record relay_wf (r : Relay) : Prop := mk_relay_wf {
  wf_no_empty_room : no_empty_room r;
  wf_members_tagged : members_tagged r;
  wf_listeners_known : listeners_known r;
}.

End Process.

(** ** The broadcast loop, named

    The body of the [forEach] of lines 137-141 (297-301), and the loop
    over the members in the order [forEach] visits them. *)

Definition deliver (ws : conn) (frame : string) (client : conn) (acc : Relay) : Relay :=
  if decide (client ≠ ws ∧ ws_readyState acc !! client = Some OPEN)
  then ws_send client frame acc
  else acc.

Definition broadcast (ws : conn) (frame : string) (l : list conn) (r : Relay) : Relay :=
  foldl (λ acc client, deliver ws frame client acc) r l.

(** ** Concrete runs

    The frames, rooms and requests the examples below are evaluated on,
    with the reference implementation of the builtins. *)

Module Scenario.
Import RefJSON.

(** The envelope of the scenario as [JSON.stringify] writes it, and the
    same envelope with a space after each colon and comma. *)
Definition notes_frame : string :=
  "{" ++ quote "type" ++ ":" ++ quote "SYNC_NOTES" ++ ","
      ++ quote "payload" ++ ":" ++ quote "suspect lied" ++ "}".

Definition notes_frame_spaced : string :=
  "{" ++ quote "type" ++ ": " ++ quote "SYNC_NOTES" ++ ", "
      ++ quote "payload" ++ ": " ++ quote "suspect lied" ++ "}".

Definition notes_data : json :=
  JObj [("type", JStr "SYNC_NOTES"); ("payload", JStr "suspect lied")].

(** An envelope cut off after its first colon. *)
Definition truncated_frame : string := "{" ++ quote "type" ++ ":".

(** [data = { notes: "", players: ["p1"] }] and a later state of it. *)
Definition data1 : json :=
  JObj [("notes", JStr ""); ("players", JArr [JStr "p1"])].

Definition data2 : json :=
  JObj [("notes", JStr "suspect lied"); ("players", JArr [JStr "p1"; JStr "p2"])].

(** No [MONGODB_URI]; a [MONGODB_URI] whose server cannot be reached; a
    reachable database. *)
Definition env_no_uri : Env := mkEnv None false.
Definition env_down : Env := mkEnv (Some "mongodb://db.example/rooms") false.
Definition env_up : Env := mkEnv (Some "mongodb://db.example/rooms") true.

(** Clients 0 and 1 connect with [code=AB12CD], client 2 with
    [code=ZZ99ZZ]. *)
Definition connections : list (Event (J := RefJSON_JSON)) :=
  [WsConnection (Some "AB12CD"); WsConnection (Some "AB12CD");
   WsConnection (Some "ZZ99ZZ")].

Definition three_clients : Relay :=
  accept (Some "ZZ99ZZ") (accept (Some "AB12CD") (accept (Some "AB12CD") relay_init)).

Definition serving : Process (J := RefJSON_JSON) :=
  mkProcess (Rev2.startServer env_no_uri ∅) three_clients.

(** [serving] after the socket of client 2 closed. *)
Definition client_2_gone : Process (J := RefJSON_JSON) :=
  mkProcess (store serving)
    (on_close "ZZ99ZZ" 2 (set_ws_readyState <[2 := CLOSED]> three_clients)).

End Scenario.

(** Every socket with a [readyState] was created by an earlier
    handshake. *)
Definition states_known (r : Relay) : Prop :=
  ∀ ws st, ws_readyState r !! ws = Some st → ws < next_ws r.

(** A request for [code] took [st] to [st']: the state of the connection
    and the rooms stored under the other codes are the same. *)
Definition same_elsewhere `{J : JSON} (code : string) (st st' : Store) : Prop :=
  mongoose_readyState st' = mongoose_readyState st
  ∧ ∀ c', c' ≠ code →
      db st' !! c' = db st !! c' ∧ localRooms st' !! c' = localRooms st !! c'.

(** ** The key route, [app.get("/api/config/keys", ...)], lines 44-54

    [process.env] is a map from names to strings.  [String.prototype.trim]
    is a builtin and a parameter of the route. *)

(** [a || b] on [string | undefined] *)
Definition or_else (a b : option string) : option string :=
  if truthy a then a else b.

(** [if (key) keys.push(key)] *)
Definition push_if (key : option string) (keys : list string) : list string :=
  match key with
  | Some k => if truthy key then keys ++ [k] else keys
  | None => keys
  end.

(** [process.env[`GEMINI_API_KEY_${i}`] || process.env[`VITE_GEMINI_API_KEY_${i}`]] *)
Definition numbered_key (env : gmap string string) (i : nat) : option string :=
  or_else (env !! ("GEMINI_API_KEY_" ++ pretty i))
          (env !! ("VITE_GEMINI_API_KEY_" ++ pretty i)).

(** [keys] after line 46 and the loop of lines 49-52. *)
Definition collected_keys (env : gmap string string) : list string :=
  foldl (λ keys i, push_if (numbered_key env i) keys)
        (push_if (env !! "GEMINI_API_KEY") [])
        (seq 1 20).

(** [Array.from(new Set(l))]: the first occurrence of every element, in
    the order of [l]. *)
Definition Set_add (acc : list string) (x : string) : list string :=
  if decide (x ∈ acc) then acc else acc ++ [x].

Definition Array_from_Set (l : list string) : list string :=
  foldl Set_add [] l.

(** The [keys] of the response. *)
Definition config_keys (trim : string → string) (env : gmap string string)
    : list string :=
  Array_from_Set (filter (λ k, trim k ≠ "") (collected_keys env)).

(** A [trim] for the examples: it strips the white space of ASCII. *)
Fixpoint trim_start (s : string) : string :=
  match s with
  | String a r =>
      if (nat_of_ascii a =? 32)%nat
         || ((9 <=? nat_of_ascii a)%nat && (nat_of_ascii a <=? 13)%nat)
      then trim_start r else s
  | EmptyString => s
  end.

Definition ascii_trim (s : string) : string :=
  String.rev (trim_start (String.rev (trim_start s))).

(** ** The client, [App.tsx] and [geminiService.ts] *)

(** The occupancy check of [joinRoom], [App.tsx] lines 155-167, on the
    room the server returned: [mode] is [room.mode], [players] is
    [room.data.players]. *)
Inductive JoinOutcome :=
| SingleOccupied                     (* first [alert], [return] *)
| RoomFull                           (* second [alert], [return] *)
| Joined (updatedPlayers : list string).

Definition includes (players : list string) (x : string) : bool :=
  bool_decide (x ∈ players).

Definition join_room (mode : string) (players : list string)
    (myPlayerId : string) : JoinOutcome :=
  if String.eqb mode "SINGLE" && (1 <=? length players)%nat
     && negb (includes players myPlayerId)
  then SingleOccupied
  else if String.eqb mode "COOP" && (2 <=? length players)%nat
          && negb (includes players myPlayerId)
  then RoomFull
  else Joined (if includes players myPlayerId then players
               else players ++ [myPlayerId]).

(** [Suspect] of [types.ts]. *)
Record Suspect := mkSuspect {
  id : string;
  name : string;
  description : string;
  personality : string;
  motive : string;
  alibi : string;
  isCulprit : bool;
  secret : string;
  age : option string;
  occupation : option string;
  traits : option (list string);
}.

(** [isCorrect] of [evaluateAccusation], [geminiService.ts] lines 99-100:
    [suspects.find(s => s.id === accusedSuspectId)?.isCulprit || false]. *)
Definition isCorrect (suspects : list Suspect) (accusedSuspectId : string) : bool :=
  match List.find (λ s, String.eqb (id s) accusedSuspectId) suspects with
  | Some accusedSuspect => isCulprit accusedSuspect
  | None => false
  end.

(** ** More concrete runs *)

Module Scenario2.
Import RefJSON Scenario.

(** A second envelope, as [JSON.stringify] writes it. *)
Definition chat_frame : string :=
  "{" ++ quote "type" ++ ":" ++ quote "SYNC_CHAT" ++ ","
      ++ quote "payload" ++ ":" ++ quote "hello" ++ "}".

Definition chat_data : json :=
  JObj [("type", JStr "SYNC_CHAT"); ("payload", JStr "hello")].

(** [three_clients] after client 0 sent [notes_frame], and after client 0
    then sent [chat_frame]. *)
Definition notes_sent : Relay := broadcast 0 notes_frame [1; 0] three_clients.
Definition chat_sent : Relay := broadcast 0 chat_frame [1; 0] notes_sent.

(** [serving] after [notes_frame] from client 0. *)
Definition notes_served : Process (J := RefJSON_JSON) :=
  mkProcess (store serving) notes_sent.

(** [client_2_gone] after a new client connected with [code=ZZ99ZZ]. *)
Definition client_3_joined : Process (J := RefJSON_JSON) :=
  mkProcess (store client_2_gone) (accept (Some "ZZ99ZZ") (relay client_2_gone)).


(** An environment with keys: a plain one, a numbered one that repeats
    it, a blank numbered one that shadows its [VITE_] variant, and a
    [VITE_] variant standing in for a missing numbered one. *)
Definition key_env : gmap string string :=
  list_to_map
    [("GEMINI_API_KEY", "k-main"); ("GEMINI_API_KEY_1", "k-main");
     ("GEMINI_API_KEY_2", "  "); ("VITE_GEMINI_API_KEY_2", "k-two");
     ("VITE_GEMINI_API_KEY_3", "k-three"); ("GEMINI_API_KEY_21", "k-late")].

Definition suspects4 : list Suspect :=
  [mkSuspect "s1" "Rajesh" "" "" "" "" false "" None None None;
   mkSuspect "s2" "Priya" "" "" "" "" true "" None None None;
   mkSuspect "s3" "Vikram" "" "" "" "" false "" None None None].

End Scenario2.

(** * Properties *)

Local Open Scope list_scope.

(** ** The broadcast loop *)

Section Broadcast.
Context `{J : JSON}.

Lemma on_message_parsed code ws message data r :
  JSON_parse message = Some data →
  on_message code ws message r =
    Ok (match clients r !! code with
        | Some roomClients =>
            broadcast ws (JSON_stringify data) (elements roomClients) r
        | None => r
        end).
Proof.
  intros Hp. unfold on_message. rewrite Hp.
  destruct (clients r !! code); reflexivity.
Qed.

Lemma deliver_fields ws frame client r :
  clients (deliver ws frame client r) = clients r
  ∧ ws_readyState (deliver ws frame client r) = ws_readyState r
  ∧ listeners (deliver ws frame client r) = listeners r
  ∧ next_ws (deliver ws frame client r) = next_ws r.
Proof. unfold deliver. case_decide; done. Qed.

Lemma broadcast_fields ws frame l r :
  clients (broadcast ws frame l r) = clients r
  ∧ ws_readyState (broadcast ws frame l r) = ws_readyState r
  ∧ listeners (broadcast ws frame l r) = listeners r
  ∧ next_ws (broadcast ws frame l r) = next_ws r.
Proof.
  revert r. induction l as [|x l IH]; intros r; [done|].
  change (broadcast ws frame (x :: l) r)
    with (broadcast ws frame l (deliver ws frame x r)).
  destruct (IH (deliver ws frame x r)) as (-> & -> & -> & ->).
  apply deliver_fields.
Qed.

Lemma frames_ws_send client frame r y :
  frames (ws_send client frame r) y =
    if decide (y = client) then frames r client ++ [frame] else frames r y.
Proof.
  unfold ws_send, frames at 1. cbn.
  case_decide as Hy.
  - subst. by rewrite lookup_insert_eq.
  - by rewrite lookup_insert_ne.
Qed.

Lemma frames_deliver ws frame client r y :
  frames (deliver ws frame client r) y =
    if decide (y = client ∧ y ≠ ws ∧ ws_readyState r !! y = Some OPEN)
    then frames r y ++ [frame] else frames r y.
Proof.
  unfold deliver. case_decide as Hc.
  - rewrite frames_ws_send. repeat case_decide; naive_solver.
  - case_decide; naive_solver.
Qed.

(** Each member of the set is visited once: an open peer gets exactly one
    more frame, every other socket none. *)
Lemma frames_broadcast ws frame l r y :
  NoDup l →
  frames (broadcast ws frame l r) y =
    if decide (y ∈ l ∧ y ≠ ws ∧ ws_readyState r !! y = Some OPEN)
    then frames r y ++ [frame] else frames r y.
Proof.
  intros Hnd. revert r. induction Hnd as [|x l Hx Hnd IH]; intros r.
  - cbn. case_decide as Hc; [|done]. destruct Hc as [Hc _]. by apply elem_of_nil in Hc.
  - change (broadcast ws frame (x :: l) r)
      with (broadcast ws frame l (deliver ws frame x r)).
    rewrite IH.
    destruct (deliver_fields ws frame x r) as (_ & -> & _ & _).
    rewrite frames_deliver.
    destruct (decide (y = x)) as [->|Hne].
    + repeat case_decide; try done; set_solver.
    + repeat case_decide; try done; set_solver.
Qed.

End Broadcast.

(** ** The registry across events *)

Section Registry.
Context `{J : JSON}.

Lemma relay_init_wf : relay_wf relay_init.
Proof. split; intros ?; intros; cbn in *; by simplify_map_eq. Qed.

Lemma ws_close_fields ws r :
  clients (ws_close ws r) = clients r
  ∧ sent (ws_close ws r) = sent r
  ∧ listeners (ws_close ws r) = listeners r
  ∧ next_ws (ws_close ws r) = next_ws r.
Proof. unfold ws_close. by destruct (ws_readyState r !! ws) as [[]|]. Qed.

(** A rejected handshake: only [ws.readyState] changes. *)
Lemma on_connection_falsy ws code r :
  truthy code = false → on_connection ws code r = ws_close ws r.
Proof. unfold on_connection. destruct code; [intros ->|]; done. Qed.

(** An admitted handshake, field by field. *)
Lemma on_connection_truthy ws c r :
  c ≠ "" →
  clients (on_connection ws (Some c) r)
    = <[c := default ∅ (clients r !! c) ∪ {[ws]}]> (clients r)
  ∧ listeners (on_connection ws (Some c) r) = <[ws := c]> (listeners r)
  ∧ ws_readyState (on_connection ws (Some c) r) = ws_readyState r
  ∧ sent (on_connection ws (Some c) r) = sent r
  ∧ next_ws (on_connection ws (Some c) r) = next_ws r.
Proof.
  intros Hc. unfold on_connection, truthy.
  apply String.eqb_neq in Hc. rewrite Hc. cbn.
  case_decide as Hs; cbn; [done|].
  split_and!; try done.
  rewrite lookup_insert_eq, insert_insert_eq. cbn.
  apply eq_None_not_Some in Hs. by rewrite Hs.
Qed.

Lemma truthy_Some c : truthy (Some c) = true ↔ c ≠ "".
Proof.
  unfold truthy. rewrite negb_true_iff. apply String.eqb_neq.
Qed.

Lemma truthy_cases code :
  (truthy code = false ∧ (code = None ∨ code = Some ""))
  ∨ (∃ c, code = Some c ∧ c ≠ "" ∧ truthy code = true).
Proof.
  destruct code as [c|]; [|left; auto].
  destruct (decide (c = "")) as [->|Hc]; [left; auto|].
  right. exists c. split_and!; [done..|]. by apply truthy_Some.
Qed.

Lemma on_connection_wf ws code r :
  relay_wf r → ws_readyState r !! ws = Some OPEN → ws < next_ws r →
  listeners r !! ws = None →
  relay_wf (on_connection ws code r).
Proof.
  intros [Hne Htag Hkn] Hopen Hlt Hfresh.
  destruct (truthy_cases code) as [[Hf _]|(c & -> & Hc & _)].
  - rewrite on_connection_falsy by done.
    destruct (ws_close_fields ws r) as (Ec & _ & El & En).
    split; unfold no_empty_room, members_tagged, listeners_known;
      rewrite ?Ec, ?El, ?En; done.
  - destruct (on_connection_truthy ws c r Hc) as (Ec & El & _ & _ & En).
    split; unfold no_empty_room, members_tagged, listeners_known;
      rewrite ?Ec, ?El, ?En.
    + intros c' s. destruct (decide (c = c')) as [<-|Hne'].
      * rewrite lookup_insert_eq. intros [= <-]. set_solver.
      * rewrite lookup_insert_ne by done. apply Hne.
    + intros c' s y. destruct (decide (c = c')) as [<-|Hne'].
      * rewrite lookup_insert_eq. intros [= <-] Hy.
        destruct (decide (y = ws)) as [->|Hyw]; [by rewrite lookup_insert_eq|].
        rewrite lookup_insert_ne by done.
        destruct (clients r !! c) as [s|] eqn:Hs; cbn in Hy; [|set_solver].
        apply (Htag c s); [done|set_solver].
      * rewrite lookup_insert_ne by done. intros Hs Hy.
        destruct (decide (y = ws)) as [->|Hyw].
        -- specialize (Htag _ _ _ Hs Hy). congruence.
        -- rewrite lookup_insert_ne by done. by apply (Htag c' s).
    + intros y c'. destruct (decide (y = ws)) as [->|Hyw]; [done|].
      rewrite lookup_insert_ne by done. apply Hkn.
Qed.

Lemma accept_wf code r : relay_wf r → relay_wf (accept code r).
Proof.
  intros Hwf. unfold accept.
  assert (next_ws r < S (next_ws r)) as Hlt by lia.
  assert (listeners r !! next_ws r = None) as Hfresh.
  { destruct (listeners r !! next_ws r) as [c|] eqn:Hl; [|done].
    apply (wf_listeners_known _ Hwf) in Hl. lia. }
  apply on_connection_wf; cbn; [|by rewrite lookup_insert_eq|done..].
  destruct Hwf as [Hne Htag Hkn]. split; [done..|].
  intros y c Hy. cbn. specialize (Hkn _ _ Hy). lia.
Qed.

(** The registry after a ["close"] listener ran. *)
Lemma on_close_clients code ws r :
  clients (on_close code ws r) =
    match clients r !! code with
    | Some s =>
        if decide (s ∖ {[ws]} = ∅) then delete code (clients r)
        else <[code := s ∖ {[ws]}]> (clients r)
    | None => clients r
    end.
Proof.
  unfold on_close. destruct (clients r !! code) as [s|]; [|done].
  destruct (decide (size (s ∖ {[ws]}) = 0)) as [Hz|Hnz].
  - apply size_empty_inv in Hz. apply leibniz_equiv in Hz.
    rewrite decide_True by done. cbn. by rewrite delete_insert_eq.
  - rewrite decide_False; [done|]. intros He. apply Hnz. rewrite He.
    apply size_empty.
Qed.

Lemma on_close_fields code ws r :
  ws_readyState (on_close code ws r) = ws_readyState r
  ∧ sent (on_close code ws r) = sent r
  ∧ listeners (on_close code ws r) = listeners r
  ∧ next_ws (on_close code ws r) = next_ws r.
Proof.
  unfold on_close. destruct (clients r !! code) as [s|]; [|done].
  by case_decide.
Qed.

Lemma on_close_wf code ws r : relay_wf r → relay_wf (on_close code ws r).
Proof.
  intros [Hne Htag Hkn].
  destruct (on_close_fields code ws r) as (_ & _ & El & En).
  pose proof (on_close_clients code ws r) as Ec.
  split; unfold no_empty_room, members_tagged, listeners_known;
    rewrite ?El, ?En, ?Ec; [| |done].
  - intros c s. destruct (clients r !! code) as [s0|] eqn:Hs0; [|apply Hne].
    case_decide as He.
    + intros Hd. apply lookup_delete_Some in Hd as [_ Hd]. by apply (Hne c).
    + destruct (decide (code = c)) as [<-|Hcc].
      * rewrite lookup_insert_eq. by intros [= <-].
      * rewrite lookup_insert_ne by done. apply Hne.
  - intros c s y. destruct (clients r !! code) as [s0|] eqn:Hs0; [|apply Htag].
    case_decide as He.
    + intros Hd. apply lookup_delete_Some in Hd as [_ Hd]. by apply (Htag c).
    + destruct (decide (code = c)) as [<-|Hcc].
      * rewrite lookup_insert_eq. intros [= <-] Hy.
        apply (Htag code s0); [done|set_solver].
      * rewrite lookup_insert_ne by done. apply Htag.
Qed.

Lemma set_ws_readyState_wf f r : relay_wf r → relay_wf (set_ws_readyState f r).
Proof. intros [Hne Htag Hkn]. by split. Qed.

Lemma on_message_wf code ws message r r' :
  relay_wf r → on_message code ws message r = Ok r' → relay_wf r'.
Proof.
  intros [Hne Htag Hkn]. unfold on_message.
  destruct (JSON_parse message) as [data|]; [|done].
  destruct (clients r !! code) as [s|]; intros [= <-]; [|done].
  change (forEach _ s r) with (broadcast ws (JSON_stringify data) (elements s) r).
  destruct (broadcast_fields ws (JSON_stringify data) (elements s) r)
    as (Ec & _ & El & En).
  split; unfold no_empty_room, members_tagged, listeners_known;
    rewrite ?Ec, ?El, ?En; done.
Qed.

Lemma boot_relay rv env durable : relay (boot rv env durable) = relay_init.
Proof. done. Qed.

Lemma step_wf rv ev p p' :
  relay_wf (relay p) → step rv ev p = Running p' → relay_wf (relay p').
Proof.
  intros Hwf. destruct ev; cbn.
  - intros [= <-]. cbn. by apply accept_wf.
  - destruct (listeners (relay p) !! ws) as [c|]; [|by intros [= <-]].
    destruct (emits_messages (relay p) ws); [|by intros [= <-]].
    destruct (on_message c ws message (relay p)) as [r'|] eqn:Hm; [|done].
    intros [= <-]. cbn. by eapply on_message_wf.
  - destruct (ws_readyState (relay p) !! ws) as [[]|]; intros [= <-]; try done.
    cbn. by apply set_ws_readyState_wf.
  - destruct (ws_readyState (relay p) !! ws) as [[]|]; try (by intros [= <-]);
      (destruct (listeners (relay p) !! ws) as [c|]; intros [= <-]; cbn;
       [apply on_close_wf|]; by apply set_ws_readyState_wf).
  - destruct rv; intros [= <-]; done.
  - destruct rv; intros [= <-]; done.
  - destruct rv; intros [= <-]; done.
  - intros [= <-]; done.
Qed.

Lemma reachable_wf rv p : reachable rv p → relay_wf (relay p).
Proof.
  induction 1 as [env durable|ev p p' _ IH Hstep].
  - rewrite boot_relay. apply relay_init_wf.
  - by eapply step_wf.
Qed.

Lemma run_reachable rv evs p p' :
  reachable rv p → run rv evs p = Running p' → reachable rv p'.
Proof.
  revert p. induction evs as [|ev evs IH]; intros p Hr; cbn.
  - by intros [= <-].
  - destruct (step rv ev p) as [p1|] eqn:Hs; [|done].
    apply IH. by eapply reachable_step.
Qed.

End Registry.

(** ** Registered sockets are live *)

Section Live.
Context `{J : JSON}.

Lemma emits_messages_insert_ne ws st r y :
  y ≠ ws →
  emits_messages (set_ws_readyState <[ws := st]> r) y = emits_messages r y.
Proof. intros Hy. unfold emits_messages. cbn. by rewrite lookup_insert_ne. Qed.

Lemma emits_messages_ws_close_ne ws r y :
  y ≠ ws → emits_messages (ws_close ws r) y = emits_messages r y.
Proof.
  intros Hy. unfold ws_close.
  destruct (ws_readyState r !! ws) as [[]|];
    first [done | by apply emits_messages_insert_ne].
Qed.

Lemma member_known r c s y :
  relay_wf r → clients r !! c = Some s → y ∈ s → y < next_ws r.
Proof.
  intros Hwf Hs Hy.
  eapply (wf_listeners_known _ Hwf), (wf_members_tagged _ Hwf); eauto.
Qed.

Lemma accept_live code r :
  relay_wf r → members_live r → members_live (accept code r).
Proof.
  intros Hwf Hlive. unfold accept.
  set (ws := next_ws r).
  set (r0 := set_next_ws S (set_ws_readyState <[ws := OPEN]> r)).
  assert (∀ c s y, clients r !! c = Some s → y ∈ s → y ≠ ws) as Hfresh.
  { intros c s y Hs Hy. pose proof (member_known r c s y Hwf Hs Hy). unfold ws. lia. }
  destruct (truthy_cases code) as [[Hf _]|(c & -> & Hc & _)].
  - rewrite on_connection_falsy by done.
    destruct (ws_close_fields ws r0) as (Ec & _ & _ & _).
    intros c s y. rewrite Ec. cbn. intros Hs Hy.
    specialize (Hfresh _ _ _ Hs Hy). specialize (Hlive _ _ _ Hs Hy).
    rewrite emits_messages_ws_close_ne by done.
    unfold r0, emits_messages in *. cbn.
    rewrite lookup_insert_ne; [exact Hlive|]. intros E. by apply Hfresh.
  - destruct (on_connection_truthy ws c r0 Hc) as (Ec & _ & Er & _ & _).
    intros c' s y. rewrite Ec. unfold emits_messages. rewrite Er.
    unfold r0. cbn.
    destruct (decide (y = ws)) as [->|Hyw]; [by rewrite lookup_insert_eq|].
    rewrite (lookup_insert_ne (ws_readyState r)) by congruence.
    destruct (decide (c = c')) as [<-|Hcc].
    + rewrite lookup_insert_eq. intros [= <-] Hy.
      destruct (clients r !! c) as [s|] eqn:Hs; cbn in Hy; [|set_solver].
      apply (Hlive c s); [done|set_solver].
    + rewrite lookup_insert_ne by congruence. apply Hlive.
Qed.

Lemma on_close_live code ws r :
  relay_wf r → members_live r → listeners r !! ws = Some code →
  members_live (on_close code ws (set_ws_readyState <[ws := CLOSED]> r)).
Proof.
  intros Hwf Hlive Hl.
  set (r1 := set_ws_readyState <[ws := CLOSED]> r).
  pose proof (on_close_clients code ws r1) as Ec.
  destruct (on_close_fields code ws r1) as (Er & _ & _ & _).
  assert (∀ c s y, clients r !! c = Some s → y ∈ s → y ≠ ws ∨ c = code) as Hown.
  { intros c s y Hs Hy. destruct (decide (y = ws)) as [->|]; [right|by left].
    pose proof (wf_members_tagged _ Hwf _ _ _ Hs Hy). congruence. }
  assert (∀ c s y, clients r !! c = Some s → y ∈ s → y ≠ ws →
            emits_messages (on_close code ws r1) y = true) as Hkeep.
  { intros c s y Hs Hy Hyw. unfold emits_messages. rewrite Er. cbn.
    rewrite lookup_insert_ne by congruence. by apply (Hlive c s). }
  intros c s y. rewrite Ec. cbn.
  destruct (clients r !! code) as [s0|] eqn:Hs0.
  - case_decide as He.
    + intros Hd Hy. apply lookup_delete_Some in Hd as [Hne Hd].
      destruct (Hown _ _ _ Hd Hy) as [Hyw|]; [|done]. by apply (Hkeep c s).
    + destruct (decide (code = c)) as [<-|Hcc].
      * rewrite lookup_insert_eq. intros [= <-] Hy.
        apply (Hkeep code s0); set_solver.
      * rewrite lookup_insert_ne by congruence. intros Hs Hy.
        destruct (Hown _ _ _ Hs Hy) as [Hyw|]; [|done]. by apply (Hkeep c s).
  - intros Hs Hy. destruct (Hown _ _ _ Hs Hy) as [Hyw| ->]; [|congruence].
    by apply (Hkeep c s).
Qed.

Lemma step_live rv ev p p' :
  relay_wf (relay p) → members_live (relay p) →
  step rv ev p = Running p' → members_live (relay p').
Proof.
  intros Hwf Hlive. destruct ev; cbn.
  - intros [= <-]. cbn. by apply accept_live.
  - destruct (listeners (relay p) !! ws) as [c|]; [|by intros [= <-]].
    destruct (emits_messages (relay p) ws); [|by intros [= <-]].
    destruct (on_message c ws message (relay p)) as [r'|] eqn:Hm; [|done].
    intros [= <-]. cbn. revert Hm. unfold on_message.
    destruct (JSON_parse message) as [data|]; [|done].
    destruct (clients (relay p) !! c) as [s|]; intros [= <-]; [|done].
    change (forEach _ s (relay p))
      with (broadcast ws (JSON_stringify data) (elements s) (relay p)).
    destruct (broadcast_fields ws (JSON_stringify data) (elements s) (relay p))
      as (Ec & Er & _ & _).
    intros c' s' y. unfold emits_messages. rewrite Ec, Er. apply Hlive.
  - destruct (ws_readyState (relay p) !! ws) as [[]|] eqn:Hst;
      intros [= <-]; try done.
    cbn. intros c s y Hs Hy. cbn in Hs.
    destruct (decide (y = ws)) as [->|Hyw].
    + unfold emits_messages. cbn. by rewrite lookup_insert_eq.
    + rewrite emits_messages_insert_ne by done. by apply (Hlive c s).
  - assert (∀ c s y, clients (relay p) !! c = Some s → y ∈ s →
              listeners (relay p) !! ws = None →
              emits_messages (set_ws_readyState <[ws := CLOSED]> (relay p)) y = true)
      as Hnone.
    { intros c s y Hs Hy Hl. destruct (decide (y = ws)) as [->|Hyw].
      - pose proof (wf_members_tagged _ Hwf _ _ _ Hs Hy). congruence.
      - rewrite emits_messages_insert_ne by done. by apply (Hlive c s). }
    destruct (ws_readyState (relay p) !! ws) as [[]|]; try (by intros [= <-]);
      (destruct (listeners (relay p) !! ws) as [c|] eqn:Hl; intros [= <-]; cbn;
       [by apply on_close_live | intros c s y Hs Hy; by apply (Hnone c s)]).
  - destruct rv; intros [= <-]; done.
  - destruct rv; intros [= <-]; done.
  - destruct rv; intros [= <-]; done.
  - intros [= <-]; done.
Qed.

Lemma reachable_live rv p : reachable rv p → members_live (relay p).
Proof.
  induction 1 as [env durable|ev p p' Hr IH Hstep].
  - rewrite boot_relay. intros c s y Hs. cbn in Hs. by simplify_map_eq.
  - eapply step_live; eauto using reachable_wf.
Qed.

End Live.

(** ** Sockets that were turned away *)

Section Rejected.
Context `{J : JSON}.

Lemma accept_listeners code r ws :
  ws < next_ws r →
  listeners (accept code r) !! ws = listeners r !! ws
  ∧ next_ws (accept code r) = S (next_ws r).
Proof.
  intros Hlt. unfold accept.
  destruct (truthy_cases code) as [[Hf _]|(c & -> & Hc & _)].
  - rewrite on_connection_falsy by done.
    destruct (ws_close_fields (next_ws r)
                (set_next_ws S (set_ws_readyState <[next_ws r := OPEN]> r)))
      as (_ & _ & -> & ->). done.
  - destruct (on_connection_truthy (next_ws r) c
                (set_next_ws S (set_ws_readyState <[next_ws r := OPEN]> r)) Hc)
      as (_ & -> & _ & _ & ->). cbn.
    split; [|done]. apply lookup_insert_ne. lia.
Qed.

Lemma accept_next_ws code r : next_ws (accept code r) = S (next_ws r).
Proof.
  unfold accept.
  destruct (truthy_cases code) as [[Hf _]|(c & -> & Hc & _)].
  - rewrite on_connection_falsy by done.
    by destruct (ws_close_fields (next_ws r)
                   (set_next_ws S (set_ws_readyState <[next_ws r := OPEN]> r)))
      as (_ & _ & _ & ->).
  - by destruct (on_connection_truthy (next_ws r) c
                   (set_next_ws S (set_ws_readyState <[next_ws r := OPEN]> r)) Hc)
      as (_ & _ & _ & _ & ->).
Qed.

Lemma on_message_fields code ws message r r' :
  on_message code ws message r = Ok r' →
  clients r' = clients r ∧ ws_readyState r' = ws_readyState r
  ∧ listeners r' = listeners r ∧ next_ws r' = next_ws r.
Proof.
  unfold on_message. destruct (JSON_parse message) as [data|]; [|done].
  destruct (clients r !! code) as [s|]; intros [= <-]; [|done].
  apply (broadcast_fields ws (JSON_stringify data) (elements s) r).
Qed.

(** No event changes the listeners of a socket that already exists, and
    sockets are numbered upwards. *)
Lemma step_listeners rv ev p p' ws :
  step rv ev p = Running p' → ws < next_ws (relay p) →
  listeners (relay p') !! ws = listeners (relay p) !! ws
  ∧ ws < next_ws (relay p').
Proof.
  intros Hstep Hlt. destruct ev; cbn in Hstep.
  - injection Hstep as <-. cbn.
    destruct (accept_listeners code (relay p) ws Hlt) as [-> ->]. split; [done|lia].
  - destruct (listeners (relay p) !! ws0) as [c|]; [|by injection Hstep as <-].
    destruct (emits_messages (relay p) ws0); [|by injection Hstep as <-].
    destruct (on_message c ws0 message (relay p)) as [r'|] eqn:Hm; [|done].
    injection Hstep as <-. cbn.
    destruct (on_message_fields _ _ _ _ _ Hm) as (_ & _ & -> & ->). done.
  - destruct (ws_readyState (relay p) !! ws0) as [[]|]; by injection Hstep as <-.
  - destruct (ws_readyState (relay p) !! ws0) as [[]|];
      try (by injection Hstep as <-);
      cbn in Hstep;
      (destruct (listeners (relay p) !! ws0) as [c|]; injection Hstep as <-; cbn;
       [destruct (on_close_fields c ws0
                    (set_ws_readyState <[ws0 := CLOSED]> (relay p)))
          as (_ & _ & -> & ->)|]; done).
  - destruct rv; by injection Hstep as <-.
  - destruct rv; by injection Hstep as <-.
  - destruct rv; by injection Hstep as <-.
  - by injection Hstep as <-.
Qed.

Lemma run_listeners rv evs p p' ws :
  run rv evs p = Running p' → ws < next_ws (relay p) →
  listeners (relay p') !! ws = listeners (relay p) !! ws.
Proof.
  revert p. induction evs as [|ev evs IH]; intros p; cbn.
  - by intros [= <-].
  - destruct (step rv ev p) as [p1|] eqn:Hs; [|done]. intros Hrun Hlt.
    destruct (step_listeners rv ev p p1 ws Hs Hlt) as [<- Hlt1]. by apply IH.
Qed.

Lemma registered_listens r ws :
  relay_wf r → registered r ws → is_Some (listeners r !! ws).
Proof.
  intros Hwf (c & s & Hs & Hy). exists c. by apply (wf_members_tagged _ Hwf c s).
Qed.

Lemma next_ws_fresh r :
  relay_wf r → listeners r !! next_ws r = None ∧ ¬ registered r (next_ws r).
Proof.
  intros Hwf.
  assert (listeners r !! next_ws r = None) as Hl.
  { destruct (listeners r !! next_ws r) as [c|] eqn:Hl; [|done].
    apply (wf_listeners_known _ Hwf) in Hl. lia. }
  split; [done|]. intros Hr. apply (registered_listens _ _ Hwf) in Hr.
  rewrite Hl in Hr. by destruct Hr.
Qed.

(** What a rejected handshake leaves behind. *)
Lemma accept_falsy code r :
  relay_wf r → truthy code = false →
  ws_readyState (accept code r) !! next_ws r = Some CLOSING
  ∧ clients (accept code r) = clients r
  ∧ listeners (accept code r) !! next_ws r = None
  ∧ ¬ registered (accept code r) (next_ws r).
Proof.
  intros Hwf Hf. destruct (next_ws_fresh r Hwf) as [Hl Hnr].
  unfold accept. rewrite on_connection_falsy by done.
  set (r0 := set_next_ws S (set_ws_readyState <[next_ws r := OPEN]> r)).
  destruct (ws_close_fields (next_ws r) r0) as (Ec & _ & El & _).
  assert (ws_readyState (ws_close (next_ws r) r0) !! next_ws r = Some CLOSING) as Hst.
  { unfold ws_close, r0. cbn. rewrite lookup_insert_eq. cbn.
    by rewrite lookup_insert_eq. }
  split_and!; [done|by rewrite Ec|by rewrite El|].
  intros (c & s & Hs & Hy). apply Hnr. exists c, s. by rewrite Ec in Hs.
Qed.

(** What an admitted handshake leaves behind. *)
Lemma accept_truthy c r :
  relay_wf r → c ≠ "" →
  registered_under (accept (Some c) r) c (next_ws r)
  ∧ ws_readyState (accept (Some c) r) !! next_ws r = Some OPEN
  ∧ listeners (accept (Some c) r) !! next_ws r = Some c.
Proof.
  intros Hwf Hc. unfold accept.
  set (r0 := set_next_ws S (set_ws_readyState <[next_ws r := OPEN]> r)).
  destruct (on_connection_truthy (next_ws r) c r0 Hc) as (Ec & El & Er & _ & _).
  split_and!.
  - eexists. rewrite Ec, lookup_insert_eq. split; [done|set_solver].
  - rewrite Er. unfold r0. cbn. by rewrite lookup_insert_eq.
  - rewrite El. by rewrite lookup_insert_eq.
Qed.

Lemma rejected_stays_out rv p code evs p' :
  reachable rv p → truthy code = false →
  run rv evs (mkProcess (store p) (accept code (relay p))) = Running p' →
  ¬ registered (relay p') (next_ws (relay p)).
Proof.
  intros Hr Hf Hrun.
  pose proof (reachable_wf rv p Hr) as Hwf.
  destruct (accept_falsy code (relay p) Hwf Hf) as (_ & _ & Hl & _).
  assert (reachable rv (mkProcess (store p) (accept code (relay p)))) as Hr1.
  { by apply (reachable_step rv (WsConnection code) p). }
  pose proof (run_reachable rv evs _ p' Hr1 Hrun) as Hr'.
  apply reachable_wf in Hr'.
  intros Hreg. apply (registered_listens _ _ Hr') in Hreg.
  rewrite (run_listeners rv evs _ p' _ Hrun) in Hreg.
  - cbn in Hreg. rewrite Hl in Hreg. by destruct Hreg.
  - cbn. rewrite accept_next_ws. lia.
Qed.

End Rejected.

(** ** The relay broker *)

Section Relaying.
Context `{J : JSON}.

Lemma on_message_frames code X message data r r' Y :
  JSON_parse message = Some data →
  on_message code X message r = Ok r' →
  frames r' Y =
    if decide (registered_under r code Y ∧ Y ≠ X
               ∧ ws_readyState r !! Y = Some OPEN)
    then frames r Y ++ [JSON_stringify data]
    else frames r Y.
Proof.
  intros Hp. rewrite (on_message_parsed _ _ _ data) by done. intros [= <-].
  destruct (clients r !! code) as [s|] eqn:Hs.
  - rewrite frames_broadcast by apply NoDup_elements.
    assert (Y ∈ elements s ↔ registered_under r code Y) as Hreg.
    { rewrite elem_of_elements. unfold registered_under. rewrite Hs.
      split; [eauto|]. by intros (s' & [= <-] & Hy). }
    repeat case_decide; try done; tauto.
  - rewrite decide_False; [done|].
    intros [(s & Hs' & _) _]. congruence.
Qed.

(** C1.  A frame that parses, sent by the socket [X] whose listeners
    captured [code], is passed to [send] of every other member of the set
    of [code] whose [readyState] is [OPEN], once, and [X] itself is sent
    nothing. *)
Theorem message_reaches_open_peers code X message data r :
  JSON_parse message = Some data →
  ∃ r', on_message code X message r = Ok r'
    ∧ (∀ Y, registered_under r code Y → Y ≠ X →
            ws_readyState r !! Y = Some OPEN →
            frames r' Y = frames r Y ++ [JSON_stringify data])
    ∧ frames r' X = frames r X.
Proof.
  intros Hp.
  destruct (on_message code X message r) as [r'|e] eqn:Hm.
  - exists r'. split; [done|].
    split.
    + intros Y Hreg Hne Hopen.
      rewrite (on_message_frames _ _ _ _ _ _ Y Hp Hm).
      by rewrite decide_True.
    + rewrite (on_message_frames _ _ _ _ _ _ X Hp Hm).
      rewrite decide_False; [done|]. tauto.
  - by rewrite (on_message_parsed _ _ _ data) in Hm.
Qed.

(** C2.  In a state the process can reach, a frame sent by a socket of
    room [c1] changes what a socket was sent only if that socket is a
    member of the set of [c1]; a member of the set of another code [c2]
    is sent nothing. *)
Theorem rooms_are_isolated rv p c1 c2 X message r' :
  reachable rv p → c1 ≠ c2 →
  on_message c1 X message (relay p) = Ok r' →
  (∀ Y, frames r' Y ≠ frames (relay p) Y → registered_under (relay p) c1 Y)
  ∧ (∀ Y, registered_under (relay p) c2 Y → frames r' Y = frames (relay p) Y).
Proof.
  intros Hr Hne Hm.
  pose proof (reachable_wf rv p Hr) as Hwf.
  assert (∃ data, JSON_parse message = Some data) as [data Hp].
  { unfold on_message in Hm. destruct (JSON_parse message); [eauto|done]. }
  assert (∀ Y, frames r' Y ≠ frames (relay p) Y → registered_under (relay p) c1 Y)
    as Hown.
  { intros Y. rewrite (on_message_frames _ _ _ _ _ _ Y Hp Hm).
    case_decide as Hc; [tauto|done]. }
  split; [done|].
  intros Y (s2 & Hs2 & Hy2).
  destruct (decide (frames r' Y = frames (relay p) Y)) as [|Hch]; [done|].
  destruct (Hown Y Hch) as (s1 & Hs1 & Hy1).
  pose proof (wf_members_tagged _ Hwf _ _ _ Hs1 Hy1).
  pose proof (wf_members_tagged _ Hwf _ _ _ Hs2 Hy2).
  congruence.
Qed.

(** C7, as the code has it.  Every frame the relay sends for a parsed
    message is [JSON.stringify(JSON.parse(message))]: the same text for
    every recipient, the sender's own text whenever that text is what
    [JSON.stringify] writes for its value. *)
Theorem relay_forwards_reserialised code X message data r r' :
  JSON_parse message = Some data →
  on_message code X message r = Ok r' →
  (∀ Y, frames r' Y = frames r Y
        ∨ frames r' Y = frames r Y ++ [JSON_stringify data])
  ∧ (JSON_stringify data = message →
     ∀ Y, frames r' Y = frames r Y ∨ frames r' Y = frames r Y ++ [message]).
Proof.
  intros Hp Hm.
  assert (∀ Y, frames r' Y = frames r Y
               ∨ frames r' Y = frames r Y ++ [JSON_stringify data]) as Hall.
  { intros Y. rewrite (on_message_frames _ _ _ _ _ _ Y Hp Hm).
    case_decide; auto. }
  split; [done|]. by intros <-.
Qed.

(** A frame that does not parse: the listener throws, and the exception
    ends the process. *)
Lemma on_message_malformed code X message r :
  JSON_parse message = None → on_message code X message r = Throw SyntaxError.
Proof. intros Hp. unfold on_message. by rewrite Hp. Qed.

Lemma step_malformed rv p ws code message :
  listeners (relay p) !! ws = Some code →
  emits_messages (relay p) ws = true →
  JSON_parse message = None →
  step rv (WsMessage ws message) p = Exited SyntaxError.
Proof.
  intros Hl He Hp. cbn. rewrite Hl, He.
  by rewrite on_message_malformed.
Qed.

End Relaying.

Section RelayingExamples.
Import Scenario.
#[local] Existing Instance RefJSON_JSON.

Lemma serving_reachable : reachable rev2 serving.
Proof.
  apply (run_reachable rev2 connections (boot rev2 env_no_uri ∅)).
  - constructor.
  - reflexivity.
Qed.

Lemma message_reaches_open_peers_witness :
  ∃ r', on_message "AB12CD" 0 notes_frame three_clients = Ok r'
    ∧ (∀ Y, registered_under three_clients "AB12CD" Y → Y ≠ 0 →
            ws_readyState three_clients !! Y = Some OPEN →
            frames r' Y = frames three_clients Y ++ [RefJSON.stringify notes_data])
    ∧ frames r' 0 = frames three_clients 0.
Proof.
  apply (message_reaches_open_peers (J := RefJSON_JSON) "AB12CD" 0 notes_frame notes_data three_clients).
  vm_compute. reflexivity.
Defined.

Lemma rooms_are_isolated_witness :
  (∀ Y, frames (broadcast 0 notes_frame [1; 0] three_clients) Y
          ≠ frames (relay serving) Y →
        registered_under (relay serving) "AB12CD" Y)
  ∧ (∀ Y, registered_under (relay serving) "ZZ99ZZ" Y →
          frames (broadcast 0 notes_frame [1; 0] three_clients) Y
            = frames (relay serving) Y).
Proof.
  apply (rooms_are_isolated (J := RefJSON_JSON) rev2 serving "AB12CD" "ZZ99ZZ" 0 notes_frame).
  - exact serving_reachable.
  - discriminate.
  - vm_compute. reflexivity.
Defined.

Lemma relay_forwards_reserialised_witness :
  (∀ Y, frames (broadcast 0 notes_frame [1; 0] three_clients) Y
          = frames three_clients Y
        ∨ frames (broadcast 0 notes_frame [1; 0] three_clients) Y
          = frames three_clients Y ++ [RefJSON.stringify notes_data])
  ∧ (RefJSON.stringify notes_data = notes_frame →
     ∀ Y, frames (broadcast 0 notes_frame [1; 0] three_clients) Y
            = frames three_clients Y
          ∨ frames (broadcast 0 notes_frame [1; 0] three_clients) Y
            = frames three_clients Y ++ [notes_frame]).
Proof.
  apply (relay_forwards_reserialised (J := RefJSON_JSON) "AB12CD" 0 notes_frame notes_data).
  - vm_compute. reflexivity.
  - vm_compute. reflexivity.
Defined.

(** C7, as the specification states it, fails: client 0 sends the
    envelope with a space after each colon and comma, it parses, and
    client 1 is sent the envelope without the spaces. *)
Lemma relay_rewrites_spaced_frame :
  RefJSON.parse notes_frame_spaced = Some notes_data
  ∧ ∃ r', on_message "AB12CD" 0 notes_frame_spaced three_clients = Ok r'
      ∧ frames three_clients 1 = []
      ∧ frames r' 1 = [notes_frame]
      ∧ notes_frame ≠ notes_frame_spaced.
Proof.
  split; [vm_compute; reflexivity|].
  eexists. split; [vm_compute; reflexivity|].
  split; [vm_compute; reflexivity|].
  split; [vm_compute; reflexivity|].
  vm_compute. discriminate.
Qed.

(** The text client 1 is sent parses to the value of the text client 0
    sent. *)
Example reserialised_frame_same_value :
  RefJSON.parse notes_frame = RefJSON.parse notes_frame_spaced.
Proof. vm_compute. reflexivity. Qed.

(** C3 fails on the code: client 0 of room [AB12CD] sends an envelope cut
    off after its first colon.  The listener throws the [SyntaxError] of
    [JSON.parse], nothing catches it, and the process, with the sockets of
    clients 1 and 2, is gone. *)
Example malformed_frame_ends_process :
  RefJSON.parse truncated_frame = None
  ∧ listeners (relay serving) !! 0 = Some "AB12CD"
  ∧ on_message "AB12CD" 0 truncated_frame (relay serving) = Throw SyntaxError
  ∧ step rev2 (WsMessage 0 truncated_frame) serving = Exited SyntaxError
  ∧ step rev1 (WsMessage 0 truncated_frame) serving = Exited SyntaxError.
Proof. repeat split; reflexivity. Qed.

End RelayingExamples.

(** ** The room registry *)

Section RegistryClaims.
Context `{J : JSON}.

Lemma accept_clients code r c :
  relay_wf r →
  clients (accept code r) !! c =
    match code with
    | Some c' =>
        if decide (c' = c ∧ c' ≠ "")
        then Some (default ∅ (clients r !! c) ∪ {[next_ws r]})
        else clients r !! c
    | None => clients r !! c
    end.
Proof.
  intros Hwf.
  destruct (truthy_cases code) as [[Hf [->| ->]]|(c' & -> & Hc & _)].
  - by destruct (accept_falsy None r Hwf Hf) as (_ & -> & _).
  - destruct (accept_falsy (Some "") r Hwf Hf) as (_ & -> & _).
    rewrite decide_False; [done|]. tauto.
  - unfold accept.
    destruct (on_connection_truthy (next_ws r) c'
                (set_next_ws S (set_ws_readyState <[next_ws r := OPEN]> r)) Hc)
      as (-> & _). cbn.
    case_decide as Hd.
    + destruct Hd as [-> _]. by rewrite lookup_insert_eq.
    + rewrite lookup_insert_ne; [done|]. tauto.
Qed.

(** Only a handshake with a code creates an entry, and the entry it
    creates holds the new socket alone. *)
Lemma step_new_entry rv ev p p' c :
  relay_wf (relay p) → step rv ev p = Running p' →
  clients (relay p) !! c = None → is_Some (clients (relay p') !! c) →
  ev = WsConnection (Some c)
  ∧ clients (relay p') !! c = Some {[next_ws (relay p)]}.
Proof.
  intros Hwf Hstep Hnone Hsome. destruct ev; cbn in Hstep.
  - injection Hstep as <-. cbn in *.
    rewrite accept_clients in Hsome |- * by done.
    destruct code as [c'|]; [|rewrite Hnone in Hsome; by destruct Hsome].
    case_decide as Hd; [|rewrite Hnone in Hsome; by destruct Hsome].
    destruct Hd as [-> _]. split; [done|].
    rewrite Hnone. cbn. f_equal. set_solver.
  - exfalso.
    destruct (listeners (relay p) !! ws) as [c'|];
      [|injection Hstep as <-; rewrite Hnone in Hsome; by destruct Hsome].
    destruct (emits_messages (relay p) ws);
      [|injection Hstep as <-; rewrite Hnone in Hsome; by destruct Hsome].
    destruct (on_message c' ws message (relay p)) as [r'|] eqn:Hm; [|done].
    injection Hstep as <-. cbn in Hsome.
    destruct (on_message_fields _ _ _ _ _ Hm) as (Ec & _).
    rewrite Ec, Hnone in Hsome. by destruct Hsome.
  - exfalso.
    destruct (ws_readyState (relay p) !! ws) as [[]|]; injection Hstep as <-;
      cbn in Hsome; rewrite Hnone in Hsome; by destruct Hsome.
  - exfalso.
    assert (∀ code, ¬ is_Some
              (clients (on_close code ws
                 (set_ws_readyState <[ws := CLOSED]> (relay p))) !! c)) as Hcl.
    { intros code. rewrite on_close_clients. cbn.
      destruct (clients (relay p) !! code) as [s|] eqn:Hs.
      - case_decide.
        + rewrite lookup_delete. case_decide; [|rewrite Hnone]; by intros [].
        + rewrite lookup_insert_ne by congruence. rewrite Hnone. by intros [].
      - rewrite Hnone. by intros []. }
    destruct (ws_readyState (relay p) !! ws) as [[]|];
      try (injection Hstep as <-; rewrite Hnone in Hsome; by destruct Hsome);
      cbn in Hstep;
      (destruct (listeners (relay p) !! ws) as [code|]; injection Hstep as <-;
       cbn in Hsome; [by apply (Hcl code)|rewrite Hnone in Hsome; by destruct Hsome]).
  - exfalso. destruct rv; injection Hstep as <-; cbn in Hsome;
      rewrite Hnone in Hsome; by destruct Hsome.
  - exfalso. destruct rv; injection Hstep as <-; cbn in Hsome;
      rewrite Hnone in Hsome; by destruct Hsome.
  - exfalso. destruct rv; injection Hstep as <-; cbn in Hsome;
      rewrite Hnone in Hsome; by destruct Hsome.
  - exfalso. injection Hstep as <-; cbn in Hsome;
      rewrite Hnone in Hsome; by destruct Hsome.
Qed.

(** The ["close"] of a member runs its listener on the member's own
    room. *)
Lemma step_close_member rv p ws c s :
  reachable rv p → clients (relay p) !! c = Some s → ws ∈ s →
  step rv (WsClose ws) p =
    Running (mkProcess (store p)
               (on_close c ws (set_ws_readyState <[ws := CLOSED]> (relay p)))).
Proof.
  intros Hr Hs Hy.
  pose proof (wf_members_tagged _ (reachable_wf rv p Hr) _ _ _ Hs Hy) as Hl.
  pose proof (reachable_live rv p Hr _ _ _ Hs Hy) as He.
  unfold emits_messages in He. cbn.
  destruct (ws_readyState (relay p) !! ws) as [[]|]; try done; cbn;
    by rewrite Hl.
Qed.

Lemma step_close_store rv p p' ws :
  step rv (WsClose ws) p = Running p' → store p' = store p.
Proof.
  cbn. destruct (ws_readyState (relay p) !! ws) as [[]|];
    try (by intros [= <-]);
    (destruct (listeners _ !! ws); by intros [= <-]).
Qed.

(** C9.  In every state the process can reach, and after every event
    from there, no code is mapped to an empty set.  An entry that an
    event creates is created by a handshake carrying that code and holds
    the new socket; the ["close"] of a member leaves its room's entry
    without the member, or no entry when it was the last one; a ["close"]
    leaves the snapshot store as it was. *)
Theorem registry_holds_no_empty_room rv ev p p' :
  reachable rv p → step rv ev p = Running p' →
  no_empty_room (relay p) ∧ no_empty_room (relay p')
  ∧ (∀ c, clients (relay p) !! c = None → is_Some (clients (relay p') !! c) →
          ev = WsConnection (Some c)
          ∧ clients (relay p') !! c = Some {[next_ws (relay p)]})
  ∧ (∀ ws c s, ev = WsClose ws → clients (relay p) !! c = Some s → ws ∈ s →
          clients (relay p') !! c =
            if decide (s ∖ {[ws]} = ∅) then None else Some (s ∖ {[ws]}))
  ∧ (∀ ws, ev = WsClose ws → store p' = store p).
Proof.
  intros Hr Hstep.
  pose proof (reachable_wf rv p Hr) as Hwf.
  pose proof (reachable_wf rv p' (reachable_step rv ev p p' Hr Hstep)) as Hwf'.
  split_and!.
  - apply Hwf.
  - apply Hwf'.
  - intros c. by apply (step_new_entry rv).
  - intros ws c s -> Hs Hy.
    rewrite (step_close_member rv p ws c s Hr Hs Hy) in Hstep.
    injection Hstep as <-. cbn. rewrite on_close_clients. cbn. rewrite Hs.
    case_decide.
    + apply lookup_delete_eq.
    + apply lookup_insert_eq.
  - intros ws ->. by apply (step_close_store rv p p' ws).
Qed.

End RegistryClaims.

(** ** The handshake *)

Section Handshake.
Context `{J : JSON}.

(** C4, as the code has it.  A handshake without the [code] parameter:
    the broker calls [close] on the new socket, installs no listener and
    leaves the registry alone, and no later event registers the socket.
    A handshake whose [code] is a non-empty string [c]: the new socket is
    a member of the set of [c], open, with its listeners installed. *)
Theorem handshake_admission rv p c :
  reachable rv p → c ≠ "" →
  let ws := next_ws (relay p) in
  (ws_readyState (accept None (relay p)) !! ws = Some CLOSING
   ∧ clients (accept None (relay p)) = clients (relay p)
   ∧ listeners (accept None (relay p)) !! ws = None
   ∧ ¬ registered (accept None (relay p)) ws
   ∧ ∀ evs p',
       run rv evs (mkProcess (store p) (accept None (relay p))) = Running p' →
       ¬ registered (relay p') ws)
  ∧ (registered_under (accept (Some c) (relay p)) c ws
     ∧ ws_readyState (accept (Some c) (relay p)) !! ws = Some OPEN
     ∧ listeners (accept (Some c) (relay p)) !! ws = Some c).
Proof.
  intros Hr Hc ws.
  pose proof (reachable_wf rv p Hr) as Hwf.
  split.
  - destruct (accept_falsy None (relay p) Hwf eq_refl) as (H1 & H2 & H3 & H4).
    split_and!; [done..|].
    intros evs p'. by apply rejected_stays_out.
  - by apply accept_truthy.
Qed.

(** C10.  A handshake whose [code] parameter is the empty string is
    handled as one without the parameter: the same state results, the
    socket is closed by the broker and never registered.  The new socket
    is registered exactly when the parameter is a non-empty string. *)
Theorem empty_code_is_refused rv p :
  reachable rv p →
  let ws := next_ws (relay p) in
  accept (Some "") (relay p) = accept None (relay p)
  ∧ ws_readyState (accept (Some "") (relay p)) !! ws = Some CLOSING
  ∧ listeners (accept (Some "") (relay p)) !! ws = None
  ∧ ¬ registered (accept (Some "") (relay p)) ws
  ∧ (∀ evs p',
       run rv evs (mkProcess (store p) (accept (Some "") (relay p))) = Running p' →
       ¬ registered (relay p') ws)
  ∧ (∀ code, registered (accept code (relay p)) ws
             ↔ ∃ c, code = Some c ∧ c ≠ "").
Proof.
  intros Hr ws.
  pose proof (reachable_wf rv p Hr) as Hwf.
  destruct (accept_falsy (Some "") (relay p) Hwf eq_refl) as (H1 & H2 & H3 & H4).
  split_and!; [done..| |].
  - intros evs p'. by apply rejected_stays_out.
  - intros code. split.
    + intros Hreg.
      destruct (truthy_cases code) as [[Hf _]|(c & -> & Hc & _)]; [|eauto].
      by destruct (accept_falsy code (relay p) Hwf Hf) as (_ & _ & _ & Hn).
    + intros (c & -> & Hc).
      destruct (accept_truthy c (relay p) Hwf Hc) as ((s & Hs & Hy) & _).
      by exists c, s.
Qed.

End Handshake.

Section RegistryExamples.
Import Scenario.
#[local] Existing Instance RefJSON_JSON.

Lemma registry_holds_no_empty_room_witness :
  no_empty_room (relay serving) ∧ no_empty_room (relay client_2_gone)
  ∧ (∀ c, clients (relay serving) !! c = None →
          is_Some (clients (relay client_2_gone) !! c) →
          WsClose 2 = WsConnection (Some c)
          ∧ clients (relay client_2_gone) !! c = Some {[next_ws (relay serving)]})
  ∧ (∀ ws c s, WsClose 2 = WsClose ws →
          clients (relay serving) !! c = Some s → ws ∈ s →
          clients (relay client_2_gone) !! c =
            if decide (s ∖ {[ws]} = ∅) then None else Some (s ∖ {[ws]}))
  ∧ (∀ ws, WsClose 2 = WsClose ws → store client_2_gone = store serving).
Proof.
  apply (registry_holds_no_empty_room (J := RefJSON_JSON) rev2).
  - exact serving_reachable.
  - apply (step_close_member (J := RefJSON_JSON) rev2 serving 2 "ZZ99ZZ" {[2]}).
    + exact serving_reachable.
    + vm_compute. reflexivity.
    + set_solver.
Defined.

(** The last member of [ZZ99ZZ] closed: the entry is gone, the entry of
    [AB12CD] stays. *)
Example last_close_removes_entry :
  clients (relay serving) !! "ZZ99ZZ" = Some {[2]}
  ∧ clients (relay client_2_gone) !! "ZZ99ZZ" = None
  ∧ clients (relay client_2_gone) !! "AB12CD" = Some {[0; 1]}.
Proof. vm_compute. repeat split; reflexivity. Qed.

Lemma handshake_admission_witness :
  let ws := next_ws (relay serving) in
  (ws_readyState (accept None (relay serving)) !! ws = Some CLOSING
   ∧ clients (accept None (relay serving)) = clients (relay serving)
   ∧ listeners (accept None (relay serving)) !! ws = None
   ∧ ¬ registered (accept None (relay serving)) ws
   ∧ ∀ evs p',
       run rev2 evs (mkProcess (store serving) (accept None (relay serving)))
         = Running p' →
       ¬ registered (relay p') ws)
  ∧ (registered_under (accept (Some "AB12CD") (relay serving)) "AB12CD" ws
     ∧ ws_readyState (accept (Some "AB12CD") (relay serving)) !! ws = Some OPEN
     ∧ listeners (accept (Some "AB12CD") (relay serving)) !! ws = Some "AB12CD").
Proof.
  apply (handshake_admission (J := RefJSON_JSON) rev2 serving "AB12CD").
  - exact serving_reachable.
  - discriminate.
Defined.

(** C4, as the specification states it, fails: the handshake [?code=]
    carries the parameter, and the socket is closed and not registered
    under it. *)
Lemma present_empty_code_is_refused :
  truthy (Some "") = false
  ∧ ws_readyState (accept (Some "") relay_init) !! 0 = Some CLOSING
  ∧ clients (accept (Some "") relay_init) = ∅
  ∧ ¬ registered_under (accept (Some "") relay_init) "" 0.
Proof.
  split_and!; [vm_compute; reflexivity..|].
  intros (s & Hs & _). vm_compute in Hs. discriminate.
Qed.

Lemma empty_code_is_refused_witness :
  let ws := next_ws (relay serving) in
  accept (Some "") (relay serving) = accept None (relay serving)
  ∧ ws_readyState (accept (Some "") (relay serving)) !! ws = Some CLOSING
  ∧ listeners (accept (Some "") (relay serving)) !! ws = None
  ∧ ¬ registered (accept (Some "") (relay serving)) ws
  ∧ (∀ evs p',
       run rev2 evs (mkProcess (store serving) (accept (Some "") (relay serving)))
         = Running p' →
       ¬ registered (relay p') ws)
  ∧ (∀ code, registered (accept code (relay serving)) ws
             ↔ ∃ c, code = Some c ∧ c ≠ "").
Proof.
  apply (empty_code_is_refused (J := RefJSON_JSON) rev2 serving).
  exact serving_reachable.
Defined.

End RegistryExamples.

(** ** The snapshot store *)

Section Snapshot.
Context `{J : JSON}.

Lemma startServer_unreachable env durable :
  store_unreachable env →
  mongoose_readyState (Rev2.startServer env durable) = disconnected
  ∧ db (Rev2.startServer env durable) = durable
  ∧ localRooms (Rev2.startServer env durable) = ∅
  ∧ ((WARN, "MONGODB_URI not found. Using local memory fallback for testing.")
       ∈ console (Rev2.startServer env durable)
     ∨ (ERROR, "MongoDB connection error:")
         ∈ console (Rev2.startServer env durable)).
Proof.
  unfold store_unreachable, Rev2.startServer.
  intros [Hu|Hc].
  - rewrite Hu. cbn. split_and!; [done..|]. left. set_solver.
  - rewrite Hc. destruct (truthy (MONGODB_URI env)); cbn.
    + split_and!; [done..|]. right. set_solver.
    + split_and!; [done..|]. left. set_solver.
Qed.

(** A new process starts with an empty [localRooms], whatever the
    environment. *)
Lemma startServer_localRooms env durable :
  localRooms (Rev2.startServer env durable) = ∅
  ∧ db (Rev2.startServer env durable) = durable.
Proof.
  unfold Rev2.startServer.
  destruct (truthy (MONGODB_URI env)), (connect_resolves env); done.
Qed.

(** The three routes of the second revision without a connection. *)
Lemma fallback_post now code mode data st :
  mongoose_readyState st ≠ connected →
  Rev2.post_rooms now code mode data st =
    (res_json success_true,
     set_localRooms <[code := mkRoomDoc code mode data None]> st).
Proof. intros Hd. unfold Rev2.post_rooms. by rewrite decide_False. Qed.

Lemma fallback_get code st :
  mongoose_readyState st ≠ connected →
  Rev2.get_rooms code st =
    (match localRooms st !! code with
     | Some room => res_json (room_body room)
     | None => res_status_json 404 (error_body "Room not found")
     end, st).
Proof.
  intros Hd. unfold Rev2.get_rooms. rewrite decide_False by done.
  by destruct (localRooms st !! code).
Qed.

Lemma fallback_put now code data st :
  mongoose_readyState st ≠ connected →
  Rev2.put_rooms now code data st =
    (res_json success_true,
     match localRooms st !! code with
     | Some room => set_localRooms <[code := set_data data room]> st
     | None => st
     end).
Proof.
  intros Hd. unfold Rev2.put_rooms. rewrite decide_False by done.
  by destruct (localRooms st !! code).
Qed.

(** The first revision when the database cannot be used: [startServer]
    returns and writes the warning or the connection error, and without
    a connection the three routes answer 500 and store nothing. *)
Lemma first_revision_unreachable env durable :
  store_unreachable env →
  mongoose_readyState (Rev1.startServer env durable) = disconnected
  ∧ db (Rev1.startServer env durable) = durable
  ∧ ((WARN, "MONGODB_URI not found. Persistence will not work on Render free tier.")
       ∈ console (Rev1.startServer env durable)
     ∨ (ERROR, "MongoDB connection error:")
         ∈ console (Rev1.startServer env durable)).
Proof.
  unfold store_unreachable, Rev1.startServer.
  intros [Hu|Hc].
  - rewrite Hu. cbn. split_and!; [done..|]. left. set_solver.
  - rewrite Hc. destruct (truthy (MONGODB_URI env)); cbn.
    + split_and!; [done..|]. right. set_solver.
    + split_and!; [done..|]. left. set_solver.
Qed.

Lemma first_revision_without_connection now code mode data st :
  mongoose_readyState st ≠ connected →
  (Rev1.post_rooms now code mode data st).1
    = res_status_json 500 (error_body "Failed to create room")
  ∧ db (Rev1.post_rooms now code mode data st).2 = db st
  ∧ mongoose_readyState (Rev1.post_rooms now code mode data st).2
    = mongoose_readyState st
  ∧ Rev1.get_rooms code st
    = (res_status_json 500 (error_body "Server error"), st)
  ∧ Rev1.put_rooms now code data st
    = (res_status_json 500 (error_body "Failed to update room"), st).
Proof.
  intros Hd.
  unfold Rev1.post_rooms, Rev1.get_rooms, Rev1.put_rooms, Room_save, Room_findOne,
    Room_findOneAndUpdate.
  rewrite !(decide_False (P := mongoose_readyState st = connected)) by done.
  by destruct (decide (code = "" ∨ mode = "" ∨ JSON_is_null data = true)).
Qed.

(** C8, as the code has it.  The database is unreachable at startup
    and the code of the requests is not empty.

    Second revision: [startServer] returns, the process is not
    connected, and the console holds the warning or the connection
    error.  A create answers success, a read then returns the room
    created, an update answers success and a read then returns the new
    data; the dispatch loop keeps running through those four requests.
    Nothing reaches the database, so a process started afterwards is the
    process that would have started without them, and with the database
    still unreachable it answers a read of the code with 404.

    First revision: [startServer] returns, the process is not connected
    and the console holds the warning or the connection error; there is
    no fallback, so the create, the read and the update answer 500, the
    dispatch loop keeps running through them and the database stays as
    it was. *)
Theorem fallback_serves_requests env durable now code mode data now' data' :
  store_unreachable env → code ≠ "" →
  let st0 := Rev2.startServer env durable in
  let st1 := (Rev2.post_rooms now code mode data st0).2 in
  let st2 := (Rev2.put_rooms now' code data' st1).2 in
  let rs0 := Rev1.startServer env durable in
  (mongoose_readyState st0 ≠ connected
   ∧ (∃ level msg, (level = WARN ∨ level = ERROR) ∧ (level, msg) ∈ console st0)
   ∧ (Rev2.post_rooms now code mode data st0).1 = res_json success_true
   ∧ (Rev2.get_rooms code st1).1
       = res_json (room_body (mkRoomDoc code mode data None))
   ∧ (Rev2.put_rooms now' code data' st1).1 = res_json success_true
   ∧ (Rev2.get_rooms code st2).1
       = res_json (room_body (mkRoomDoc code mode data' None))
   ∧ run rev2 [HttpPost now code mode data; HttpGet code;
               HttpPut now' code data'; HttpGet code] (boot rev2 env durable)
       = Running (mkProcess st2 relay_init)
   ∧ (∀ env', Rev2.startServer env' (db st2) = Rev2.startServer env' durable)
   ∧ (∀ env', store_unreachable env' →
        (Rev2.get_rooms code (Rev2.startServer env' (db st2))).1
          = res_status_json 404 (error_body "Room not found")))
  ∧ (mongoose_readyState rs0 ≠ connected
     ∧ (∃ level msg, (level = WARN ∨ level = ERROR) ∧ (level, msg) ∈ console rs0)
     ∧ (Rev1.post_rooms now code mode data rs0).1
         = res_status_json 500 (error_body "Failed to create room")
     ∧ (Rev1.get_rooms code (Rev1.post_rooms now code mode data rs0).2).1
         = res_status_json 500 (error_body "Server error")
     ∧ (Rev1.put_rooms now' code data' (Rev1.post_rooms now code mode data rs0).2).1
         = res_status_json 500 (error_body "Failed to update room")
     ∧ ∃ p', run rev1 [HttpPost now code mode data; HttpGet code;
                       HttpPut now' code data'] (boot rev1 env durable)
               = Running p'
             ∧ db (store p') = durable).
Proof.
  intros Hu Hcode st0 st1 st2 rs0. split; [|clear st0 st1 st2].
  2: {
    destruct (first_revision_unreachable env durable Hu) as (Hrs & Hdb & Hlog).
    assert (mongoose_readyState rs0 ≠ connected) as H0
      by (unfold rs0; by rewrite Hrs).
    destruct (first_revision_without_connection now code mode data rs0 H0)
      as (Hpost & Hpdb & Hprs & _ & _).
    set (rs1 := (Rev1.post_rooms now code mode data rs0).2) in *.
    assert (mongoose_readyState rs1 ≠ connected) as H1 by (by rewrite Hprs).
    destruct (first_revision_without_connection now' code mode data' rs1 H1)
      as (_ & _ & _ & Hget & Hput).
    split_and!.
    - done.
    - destruct Hlog as [Hlog|Hlog]; eauto 6.
    - done.
    - by rewrite Hget.
    - by rewrite Hput.
    - exists (mkProcess rs1 relay_init). split.
      + cbn. unfold with_store. cbn. fold rs0. fold rs1.
        rewrite Hget. cbn. by rewrite Hput.
      + cbn. rewrite Hpdb. exact Hdb. }
  destruct (startServer_unreachable env durable Hu) as (Hrs & Hdb & Hloc & Hlog).
  assert (mongoose_readyState st0 ≠ connected) as H0 by (unfold st0; by rewrite Hrs).
  assert (st1 = set_localRooms <[code := mkRoomDoc code mode data None]> st0) as E1.
  { unfold st1. by rewrite fallback_post. }
  assert (mongoose_readyState st1 ≠ connected) as H1 by (by rewrite E1).
  assert (localRooms st1 !! code = Some (mkRoomDoc code mode data None)) as L1.
  { rewrite E1. cbn. apply lookup_insert_eq. }
  assert (st2 = set_localRooms <[code := mkRoomDoc code mode data' None]> st1) as E2.
  { unfold st2. rewrite fallback_put by done. by rewrite L1. }
  assert (mongoose_readyState st2 ≠ connected) as H2 by (by rewrite E2).
  assert (db st2 = durable) as Hdb2 by (by rewrite E2, E1).
  split_and!.
  - done.
  - destruct Hlog as [Hlog|Hlog]; eauto 6.
  - by rewrite fallback_post.
  - rewrite fallback_get by done. by rewrite L1.
  - by rewrite fallback_put.
  - rewrite fallback_get by done. rewrite E2. cbn. by rewrite lookup_insert_eq.
  - cbn. unfold with_store. cbn. fold st0. fold st1.
    rewrite (fallback_get code st1) by done. cbn. fold st2.
    rewrite (fallback_get code st2) by done. done.
  - intros env'. by rewrite Hdb2.
  - intros env' Hu'.
    destruct (startServer_unreachable env' (db st2) Hu') as (Hrs' & _ & Hloc' & _).
    rewrite fallback_get by (by rewrite Hrs'). by rewrite Hloc'.
Qed.

(** A create for a code the database holds: both revisions answer 500
    and leave the database as it was. *)
Lemma durable_duplicate now code mode data st :
  mongoose_readyState st = connected → is_Some (db st !! code) →
  ∃ err,
    Rev1.post_rooms now code mode data st
      = (res_status_json 500 (error_body "Failed to create room"),
         console_write ERROR (show_exn err) st)
    ∧ Rev2.post_rooms now code mode data st
      = (res_status_json 500 (error_body "Failed to create room"),
         console_write ERROR (show_exn err) st)
    ∧ db (console_write ERROR (show_exn err) st) = db st.
Proof.
  intros Hc Hs. unfold Rev1.post_rooms, Rev2.post_rooms, Room_save.
  destruct (decide (mongoose_readyState st = connected)); [|done].
  destruct (decide (code = "" ∨ mode = "" ∨ JSON_is_null data = true)).
  - by exists ValidationError.
  - destruct (decide (is_Some (db st !! code))); [|done].
    by exists DuplicateKeyError.
Qed.

(** C6, as the code has it.  For a non-empty code the snapshot store
    does not hold, a read answers 404 [Room not found] and an update
    answers success and leaves the store as it was: in the second
    revision with or without a connection, in the first revision with a
    connection.  Without a connection the first revision answers the
    read and the update with 500. *)
Theorem missing_code_read_fails_update_is_noop now code data st :
  code ≠ "" → Rev2.stored code st = None →
  (Rev2.get_rooms code st).1
    = res_status_json 404 (error_body "Room not found")
  ∧ Rev2.put_rooms now code data st = (res_json success_true, st)
  ∧ (Rev1.get_rooms code st).1
    = (if decide (mongoose_readyState st = connected)
       then res_status_json 404 (error_body "Room not found")
       else res_status_json 500 (error_body "Server error"))
  ∧ Rev1.put_rooms now code data st
    = (if decide (mongoose_readyState st = connected)
       then res_json success_true
       else res_status_json 500 (error_body "Failed to update room"), st).
Proof.
  intros _.
  unfold Rev2.stored, Rev1.get_rooms, Rev2.get_rooms, Rev1.put_rooms,
    Rev2.put_rooms, Room_findOne, Room_findOneAndUpdate.
  destruct (decide (mongoose_readyState st = connected)) as [E|E];
    intros Hn; rewrite Hn; done.
Qed.

End Snapshot.

Section SnapshotExamples.
Import Scenario.
#[local] Existing Instance RefJSON_JSON.

Lemma fallback_serves_requests_witness :
  let st0 := Rev2.startServer env_down ∅ in
  let st1 := (Rev2.post_rooms 10 "AB12CD" "SINGLE" data1 st0).2 in
  let st2 := (Rev2.put_rooms 20 "AB12CD" data2 st1).2 in
  let rs0 := Rev1.startServer env_down ∅ in
  (mongoose_readyState st0 ≠ connected
   ∧ (∃ level msg, (level = WARN ∨ level = ERROR) ∧ (level, msg) ∈ console st0)
   ∧ (Rev2.post_rooms 10 "AB12CD" "SINGLE" data1 st0).1 = res_json success_true
   ∧ (Rev2.get_rooms "AB12CD" st1).1
       = res_json (room_body (mkRoomDoc "AB12CD" "SINGLE" data1 None))
   ∧ (Rev2.put_rooms 20 "AB12CD" data2 st1).1 = res_json success_true
   ∧ (Rev2.get_rooms "AB12CD" st2).1
       = res_json (room_body (mkRoomDoc "AB12CD" "SINGLE" data2 None))
   ∧ run rev2 [HttpPost 10 "AB12CD" "SINGLE" data1; HttpGet "AB12CD";
               HttpPut 20 "AB12CD" data2; HttpGet "AB12CD"] (boot rev2 env_down ∅)
       = Running (mkProcess st2 relay_init)
   ∧ (∀ env', Rev2.startServer env' (db st2) = Rev2.startServer env' ∅)
   ∧ (∀ env', store_unreachable env' →
        (Rev2.get_rooms "AB12CD" (Rev2.startServer env' (db st2))).1
          = res_status_json 404 (error_body "Room not found")))
  ∧ (mongoose_readyState rs0 ≠ connected
     ∧ (∃ level msg, (level = WARN ∨ level = ERROR) ∧ (level, msg) ∈ console rs0)
     ∧ (Rev1.post_rooms 10 "AB12CD" "SINGLE" data1 rs0).1
         = res_status_json 500 (error_body "Failed to create room")
     ∧ (Rev1.get_rooms "AB12CD"
          (Rev1.post_rooms 10 "AB12CD" "SINGLE" data1 rs0).2).1
         = res_status_json 500 (error_body "Server error")
     ∧ (Rev1.put_rooms 20 "AB12CD" data2
          (Rev1.post_rooms 10 "AB12CD" "SINGLE" data1 rs0).2).1
         = res_status_json 500 (error_body "Failed to update room")
     ∧ ∃ p', run rev1 [HttpPost 10 "AB12CD" "SINGLE" data1; HttpGet "AB12CD";
                       HttpPut 20 "AB12CD" data2] (boot rev1 env_down ∅)
               = Running p'
             ∧ db (store p') = ∅).
Proof.
  apply (fallback_serves_requests (J := RefJSON_JSON)
           env_down ∅ 10 "AB12CD" "SINGLE" data1 20 data2).
  - right. reflexivity.
  - discriminate.
Defined.

(** C5 fails on the code.  Second revision without a connection: a room
    [AB12CD] of mode [SINGLE] exists in [localRooms]; a create for
    [AB12CD] with mode [COOP] answers success and the room is replaced.
    With a connection both revisions refuse the same create, with status
    500, and the stored room stays. *)
Example fallback_create_replaces_room :
  let st0 := Rev2.startServer env_no_uri ∅ in
  let st1 := (Rev2.post_rooms 10 "AB12CD" "SINGLE" data1 st0).2 in
  let up1 := (Rev2.post_rooms 10 "AB12CD" "SINGLE" data1
                (Rev2.startServer env_up ∅)).2 in
  localRooms st1 !! "AB12CD" = Some (mkRoomDoc "AB12CD" "SINGLE" data1 None)
  ∧ (Rev2.post_rooms 30 "AB12CD" "COOP" data2 st1).1 = res_json success_true
  ∧ localRooms (Rev2.post_rooms 30 "AB12CD" "COOP" data2 st1).2 !! "AB12CD"
      = Some (mkRoomDoc "AB12CD" "COOP" data2 None)
  ∧ db up1 !! "AB12CD" = Some (mkRoomDoc "AB12CD" "SINGLE" data1 (Some 10))
  ∧ (Rev2.post_rooms 30 "AB12CD" "COOP" data2 up1).1
      = res_status_json 500 (error_body "Failed to create room")
  ∧ db (Rev2.post_rooms 30 "AB12CD" "COOP" data2 up1).2 = db up1
  ∧ (Rev1.post_rooms 30 "AB12CD" "COOP" data2 up1).1
      = res_status_json 500 (error_body "Failed to create room").
Proof. repeat split; reflexivity. Qed.

Lemma missing_code_read_fails_update_is_noop_witness :
  ((Rev2.get_rooms "ZZ99ZZ" (Rev2.startServer env_up ∅)).1
     = res_status_json 404 (error_body "Room not found")
   ∧ Rev2.put_rooms 20 "ZZ99ZZ" data2 (Rev2.startServer env_up ∅)
     = (res_json success_true, Rev2.startServer env_up ∅)
   ∧ (Rev1.get_rooms "ZZ99ZZ" (Rev2.startServer env_up ∅)).1
     = res_status_json 404 (error_body "Room not found")
   ∧ Rev1.put_rooms 20 "ZZ99ZZ" data2 (Rev2.startServer env_up ∅)
     = (res_json success_true, Rev2.startServer env_up ∅))
  ∧ ((Rev2.get_rooms "ZZ99ZZ" (Rev2.startServer env_no_uri ∅)).1
       = res_status_json 404 (error_body "Room not found")
     ∧ Rev2.put_rooms 20 "ZZ99ZZ" data2 (Rev2.startServer env_no_uri ∅)
       = (res_json success_true, Rev2.startServer env_no_uri ∅)
     ∧ (Rev1.get_rooms "ZZ99ZZ" (Rev2.startServer env_no_uri ∅)).1
       = res_status_json 500 (error_body "Server error")
     ∧ Rev1.put_rooms 20 "ZZ99ZZ" data2 (Rev2.startServer env_no_uri ∅)
       = (res_status_json 500 (error_body "Failed to update room"),
          Rev2.startServer env_no_uri ∅)).
Proof.
  split.
  - apply (missing_code_read_fails_update_is_noop (J := RefJSON_JSON)
             20 "ZZ99ZZ" data2 (Rev2.startServer env_up ∅)).
    + discriminate.
    + reflexivity.
  - apply (missing_code_read_fails_update_is_noop (J := RefJSON_JSON)
             20 "ZZ99ZZ" data2 (Rev2.startServer env_no_uri ∅)).
    + discriminate.
    + reflexivity.
Defined.

(** C6, as the specification states it, fails.  No room [ZZ99ZZ] is
    stored; an update for [ZZ99ZZ] answers success, with and without a
    connection, and stores nothing, while a read answers 404. *)
Lemma update_of_missing_room_succeeds :
  let down := Rev2.startServer env_no_uri ∅ in
  let up := Rev2.startServer env_up ∅ in
  Rev2.put_rooms 20 "ZZ99ZZ" data2 down = (res_json success_true, down)
  ∧ Rev2.put_rooms 20 "ZZ99ZZ" data2 up = (res_json success_true, up)
  ∧ Rev1.put_rooms 20 "ZZ99ZZ" data2 (Rev1.startServer env_up ∅)
      = (res_json success_true, Rev1.startServer env_up ∅)
  ∧ (Rev2.get_rooms "ZZ99ZZ" down).1
      = res_status_json 404 (error_body "Room not found")
  ∧ (Rev2.get_rooms "ZZ99ZZ" up).1
      = res_status_json 404 (error_body "Room not found")
  ∧ (Rev1.get_rooms "ZZ99ZZ" (Rev1.startServer env_up ∅)).1
      = res_status_json 404 (error_body "Room not found").
Proof. repeat split; reflexivity. Qed.

(** C8, as the specification states it, fails.  The first revision has
    no [localRooms]: started without [MONGODB_URI], it answers a create,
    a read and an update with 500. *)
Lemma first_revision_has_no_fallback :
  let down := Rev1.startServer env_no_uri ∅ in
  (Rev1.post_rooms 10 "AB12CD" "SINGLE" data1 down).1
    = res_status_json 500 (error_body "Failed to create room")
  ∧ (Rev1.get_rooms "AB12CD" down).1
    = res_status_json 500 (error_body "Server error")
  ∧ (Rev1.put_rooms 20 "AB12CD" data2 down).1
    = res_status_json 500 (error_body "Failed to update room").
Proof. repeat split; reflexivity. Qed.

End SnapshotExamples.

(** * Further properties of the relay *)

Section RelayInvariants.
Context `{J : JSON}.

Lemma accept_ws_readyState code r y :
  y ≠ next_ws r →
  ws_readyState (accept code r) !! y = ws_readyState r !! y.
Proof.
  intros Hy. unfold accept.
  set (r0 := set_next_ws S (set_ws_readyState <[next_ws r := OPEN]> r)).
  assert (ws_readyState r0 !! y = ws_readyState r !! y) as E0.
  { unfold r0. cbn. apply lookup_insert_ne. congruence. }
  destruct (truthy_cases code) as [[Hf _]|(c & -> & Hc & _)].
  - rewrite on_connection_falsy by done. rewrite <- E0.
    unfold ws_close. destruct (ws_readyState r0 !! next_ws r) as [[]|]; try done;
      cbn; apply lookup_insert_ne; congruence.
  - by destruct (on_connection_truthy (next_ws r) c r0 Hc) as (_ & _ & -> & _).
Qed.

Lemma accept_sent code r : sent (accept code r) = sent r.
Proof.
  unfold accept.
  set (r0 := set_next_ws S (set_ws_readyState <[next_ws r := OPEN]> r)).
  destruct (truthy_cases code) as [[Hf _]|(c & -> & Hc & _)].
  - rewrite on_connection_falsy by done.
    by destruct (ws_close_fields (next_ws r) r0) as (_ & -> & _).
  - by destruct (on_connection_truthy (next_ws r) c r0 Hc) as (_ & _ & _ & -> & _).
Qed.

Lemma step_states_known rv ev p p' :
  states_known (relay p) → step rv ev p = Running p' → states_known (relay p').
Proof.
  intros Hk Hstep. destruct ev; cbn in Hstep.
  - injection Hstep as <-. intros y st. cbn. rewrite accept_next_ws.
    destruct (decide (y = next_ws (relay p))) as [->|Hy]; [lia|].
    rewrite accept_ws_readyState by done. intros Hs. apply Hk in Hs. lia.
  - destruct (listeners (relay p) !! ws) as [c|]; [|by injection Hstep as <-].
    destruct (emits_messages (relay p) ws); [|by injection Hstep as <-].
    destruct (on_message c ws message (relay p)) as [r'|] eqn:Hm; [|done].
    injection Hstep as <-. cbn.
    destruct (on_message_fields _ _ _ _ _ Hm) as (_ & Er & _ & En).
    intros y st. rewrite Er, En. apply Hk.
  - destruct (ws_readyState (relay p) !! ws) as [[]|] eqn:Hst;
      injection Hstep as <-; try done.
    intros y st. cbn. destruct (decide (y = ws)) as [->|Hy].
    + intros _. by apply (Hk ws OPEN).
    + rewrite lookup_insert_ne by congruence. apply Hk.
  - assert (∀ st0, ws_readyState (relay p) !! ws = Some st0 →
              states_known (set_ws_readyState <[ws := CLOSED]> (relay p))) as Hc.
    { intros st0 Hst y st. cbn. destruct (decide (y = ws)) as [->|Hy].
      - intros _. by apply (Hk ws st0).
      - rewrite lookup_insert_ne by congruence. apply Hk. }
    destruct (ws_readyState (relay p) !! ws) as [[]|] eqn:Hst;
      try (by injection Hstep as <-);
      cbn in Hstep;
      (destruct (listeners (relay p) !! ws) as [c|]; injection Hstep as <-; cbn;
       [destruct (on_close_fields c ws
                    (set_ws_readyState <[ws := CLOSED]> (relay p)))
          as (Er & _ & _ & En);
        intros y st; rewrite Er, En; by eapply Hc
       | by eapply Hc]).
  - destruct rv; by injection Hstep as <-.
  - destruct rv; by injection Hstep as <-.
  - destruct rv; by injection Hstep as <-.
  - by injection Hstep as <-.
Qed.

Lemma reachable_states_known rv p : reachable rv p → states_known (relay p).
Proof.
  induction 1 as [env durable|ev p p' Hr IH Hstep].
  - rewrite boot_relay. intros y st Hs. cbn in Hs. by simplify_map_eq.
  - by eapply step_states_known.
Qed.

(** One event adds at most one frame to what a socket was sent, and
    takes none away. *)
Lemma step_frames rv ev p p' Y :
  step rv ev p = Running p' →
  frames (relay p') Y = frames (relay p) Y
  ∨ (∃ X message data,
       ev = WsMessage X message ∧ JSON_parse message = Some data
       ∧ Y ≠ X ∧ ws_readyState (relay p) !! Y = Some OPEN
       ∧ frames (relay p') Y = frames (relay p) Y ++ [JSON_stringify data]
       ∧ ∃ c, listeners (relay p) !! X = Some c
              ∧ registered_under (relay p) c Y).
Proof.
  intros Hstep. destruct ev; cbn in Hstep.
  - injection Hstep as <-. left. unfold frames. cbn. by rewrite accept_sent.
  - destruct (listeners (relay p) !! ws) as [c|] eqn:Hl;
      [|injection Hstep as <-; by left].
    destruct (emits_messages (relay p) ws); [|injection Hstep as <-; by left].
    destruct (on_message c ws message (relay p)) as [r'|] eqn:Hm; [|done].
    injection Hstep as <-. cbn.
    assert (∃ data, JSON_parse message = Some data) as [data Hp].
    { unfold on_message in Hm. destruct (JSON_parse message); [eauto|done]. }
    rewrite (on_message_frames _ _ _ _ _ _ Y Hp Hm).
    case_decide as Hc; [|by left].
    right. exists ws, message, data. destruct Hc as (Hreg & Hne & Hopen).
    split_and!; [done..|]. by exists c.
  - left. destruct (ws_readyState (relay p) !! ws) as [[]|];
      by injection Hstep as <-.
  - left. destruct (ws_readyState (relay p) !! ws) as [[]|];
      try (by injection Hstep as <-);
      cbn in Hstep;
      (destruct (listeners (relay p) !! ws) as [c|]; injection Hstep as <-;
       [unfold frames; cbn;
        by destruct (on_close_fields c ws
                       (set_ws_readyState <[ws := CLOSED]> (relay p)))
          as (_ & -> & _)
       |done]).
  - left. destruct rv; by injection Hstep as <-.
  - left. destruct rv; by injection Hstep as <-.
  - left. destruct rv; by injection Hstep as <-.
  - left. by injection Hstep as <-.
Qed.

(** A closed socket stays closed. *)
Lemma step_closed rv ev p p' ws :
  states_known (relay p) →
  ws_readyState (relay p) !! ws = Some CLOSED →
  step rv ev p = Running p' →
  ws_readyState (relay p') !! ws = Some CLOSED.
Proof.
  intros Hk Hc Hstep. destruct ev; cbn in Hstep.
  - injection Hstep as <-. cbn. rewrite accept_ws_readyState; [done|].
    apply Hk in Hc. lia.
  - destruct (listeners (relay p) !! ws0) as [c|]; [|by injection Hstep as <-].
    destruct (emits_messages (relay p) ws0); [|by injection Hstep as <-].
    destruct (on_message c ws0 message (relay p)) as [r'|] eqn:Hm; [|done].
    injection Hstep as <-. cbn.
    by destruct (on_message_fields _ _ _ _ _ Hm) as (_ & -> & _).
  - destruct (ws_readyState (relay p) !! ws0) as [[]|] eqn:Hst;
      injection Hstep as <-; try done.
    cbn. rewrite lookup_insert_ne; [done|]. congruence.
  - assert (<[ws0 := CLOSED]> (ws_readyState (relay p)) !! ws = Some CLOSED) as Hi.
    { destruct (decide (ws0 = ws)) as [->|Hne]; [apply lookup_insert_eq|].
      by rewrite lookup_insert_ne. }
    destruct (ws_readyState (relay p) !! ws0) as [[]|] eqn:Hst;
      try (by injection Hstep as <-);
      cbn in Hstep;
      (destruct (listeners (relay p) !! ws0) as [c|]; injection Hstep as <-; cbn;
       [by destruct (on_close_fields c ws0
                       (set_ws_readyState <[ws0 := CLOSED]> (relay p)))
          as (-> & _)
       |done]).
  - destruct rv; by injection Hstep as <-.
  - destruct rv; by injection Hstep as <-.
  - destruct rv; by injection Hstep as <-.
  - by injection Hstep as <-.
Qed.

End RelayInvariants.

Section RelayExtras.
Context `{J : JSON}.

(** X1.  In every state the process can reach, a socket is a member of
    at most one room: the one of the code of its handshake, which its
    listeners captured. *)
Theorem socket_in_one_room rv p c1 c2 ws :
  reachable rv p →
  registered_under (relay p) c1 ws → registered_under (relay p) c2 ws →
  c1 = c2 ∧ listeners (relay p) !! ws = Some c1 ∧ ws < next_ws (relay p).
Proof.
  intros Hr (s1 & Hs1 & Hy1) (s2 & Hs2 & Hy2).
  pose proof (reachable_wf rv p Hr) as Hwf.
  pose proof (wf_members_tagged _ Hwf _ _ _ Hs1 Hy1) as H1.
  pose proof (wf_members_tagged _ Hwf _ _ _ Hs2 Hy2) as H2.
  split_and!; [congruence|done|].
  by apply (wf_listeners_known _ Hwf ws c1).
Qed.

(** X2.  In every state the process can reach, a member of the
    registry is a socket that is open or closing and whose listeners are
    installed.  So a socket that is closed is in no room, and a socket
    without listeners, as one the broker turned away, is in no room. *)
Theorem registered_sockets_are_live rv p ws :
  reachable rv p →
  (registered (relay p) ws →
   (ws_readyState (relay p) !! ws = Some OPEN
    ∨ ws_readyState (relay p) !! ws = Some CLOSING)
   ∧ is_Some (listeners (relay p) !! ws))
  ∧ (ws_readyState (relay p) !! ws = Some CLOSED → ¬ registered (relay p) ws)
  ∧ (listeners (relay p) !! ws = None → ¬ registered (relay p) ws).
Proof.
  intros Hr.
  assert (registered (relay p) ws →
          (ws_readyState (relay p) !! ws = Some OPEN
           ∨ ws_readyState (relay p) !! ws = Some CLOSING)
          ∧ is_Some (listeners (relay p) !! ws)) as Hreg.
  { intros Hin. split; [|by apply (registered_listens _ _ (reachable_wf rv p Hr))].
    destruct Hin as (c & s & Hs & Hy).
    pose proof (reachable_live rv p Hr c s ws Hs Hy) as He.
    unfold emits_messages in He.
    destruct (ws_readyState (relay p) !! ws) as [[]|]; auto; done. }
  split_and!; [done| |].
  - intros Hc Hin. destruct (Hreg Hin) as [[Ho|Ho] _]; congruence.
  - intros Hl Hin. destruct (Hreg Hin) as [_ [c Hc]]. congruence.
Qed.

(** X3.  A ["message"] listener that returns leaves the registry, the
    [readyState]s and the listeners as they were, and sends nothing to
    the sender, to a socket outside the sender's room, or to a member
    that is not open. *)
Theorem message_skips_other_sockets code X message r r' Y :
  on_message code X message r = Ok r' →
  (Y = X ∨ ¬ registered_under r code Y ∨ ws_readyState r !! Y ≠ Some OPEN) →
  frames r' Y = frames r Y
  ∧ clients r' = clients r ∧ ws_readyState r' = ws_readyState r
  ∧ listeners r' = listeners r ∧ next_ws r' = next_ws r.
Proof.
  intros Hm Hskip. split; [|by eapply on_message_fields].
  assert (∃ data, JSON_parse message = Some data) as [data Hp].
  { unfold on_message in Hm. destruct (JSON_parse message); [eauto|done]. }
  rewrite (on_message_frames _ _ _ _ _ _ Y Hp Hm).
  rewrite decide_False; [done|]. tauto.
Qed.

(** X4.  Two frames handled one after the other, from senders of the
    same room, reach an open peer in the order in which they were
    handled. *)
Theorem frames_keep_dispatch_order code X1 X2 m1 m2 d1 d2 r r1 r2 Y :
  JSON_parse m1 = Some d1 → JSON_parse m2 = Some d2 →
  on_message code X1 m1 r = Ok r1 → on_message code X2 m2 r1 = Ok r2 →
  registered_under r code Y → Y ≠ X1 → Y ≠ X2 →
  ws_readyState r !! Y = Some OPEN →
  frames r2 Y = frames r Y ++ [JSON_stringify d1; JSON_stringify d2].
Proof.
  intros Hp1 Hp2 Hm1 Hm2 Hreg Hn1 Hn2 Hopen.
  destruct (on_message_fields _ _ _ _ _ Hm1) as (Ec & Er & _ & _).
  assert (registered_under r1 code Y) as Hreg1.
  { unfold registered_under. by rewrite Ec. }
  assert (ws_readyState r1 !! Y = Some OPEN) as Hopen1 by (by rewrite Er).
  rewrite (on_message_frames _ _ _ _ _ _ Y Hp2 Hm2).
  rewrite decide_True by done.
  rewrite (on_message_frames _ _ _ _ _ _ Y Hp1 Hm1).
  rewrite decide_True by done. by rewrite <- app_assoc.
Qed.

(** X6.  A socket that is closed stays closed through every later event,
    is in no room, and is never sent another frame. *)
Theorem closed_socket_is_left_alone rv p ws evs p' :
  reachable rv p → ws_readyState (relay p) !! ws = Some CLOSED →
  run rv evs p = Running p' →
  ws_readyState (relay p') !! ws = Some CLOSED
  ∧ ¬ registered (relay p') ws
  ∧ frames (relay p') ws = frames (relay p) ws.
Proof.
  intros Hr Hc Hrun.
  assert (ws_readyState (relay p') !! ws = Some CLOSED
          ∧ frames (relay p') ws = frames (relay p) ws) as [Hc' Hf].
  { revert p Hr Hc Hrun. induction evs as [|ev evs IH]; intros p Hr Hc; cbn.
    - by intros [= <-].
    - destruct (step rv ev p) as [p1|] eqn:Hs; [|done]. intros Hrun.
      pose proof (step_closed rv ev p p1 ws
                    (reachable_states_known rv p Hr) Hc Hs) as Hc1.
      destruct (IH p1 (reachable_step rv ev p p1 Hr Hs) Hc1 Hrun) as [H1 H2].
      split; [done|]. rewrite H2.
      destruct (step_frames rv ev p p1 ws Hs)
        as [->|(X & m & d & _ & _ & _ & Hopen & _)]; [done|congruence]. }
  split_and!; [done| |done].
  intros (c & s & Hs & Hy).
  pose proof (reachable_live rv p' (run_reachable rv evs p p' Hr Hrun) c s ws Hs Hy)
    as He.
  unfold emits_messages in He. by rewrite Hc' in He.
Qed.

(** X7.  When the last member of a room closes and a client then
    connects with the same code, the room starts again with the new
    socket as its only member. *)
Theorem emptied_room_starts_fresh rv p c ws p1 p2 :
  reachable rv p → c ≠ "" → clients (relay p) !! c = Some {[ws]} →
  step rv (WsClose ws) p = Running p1 →
  step rv (WsConnection (Some c)) p1 = Running p2 →
  clients (relay p1) !! c = None
  ∧ clients (relay p2) !! c = Some {[next_ws (relay p)]}
  ∧ ws ≠ next_ws (relay p).
Proof.
  intros Hr Hc Hs H1 H2.
  pose proof (reachable_step rv _ p p1 Hr H1) as Hr1.
  assert (ws ∈ ({[ws]} : gset nat)) as Hin by set_solver.
  rewrite (step_close_member rv p ws c {[ws]} Hr Hs Hin) in H1.
  injection H1 as <-.
  assert (clients (on_close c ws
            (set_ws_readyState <[ws := CLOSED]> (relay p))) !! c = None) as Hgone.
  { rewrite on_close_clients. cbn. rewrite Hs.
    rewrite decide_True by set_solver. apply lookup_delete_eq. }
  assert (next_ws (on_close c ws
            (set_ws_readyState <[ws := CLOSED]> (relay p))) = next_ws (relay p))
    as Hnext.
  { by destruct (on_close_fields c ws
                   (set_ws_readyState <[ws := CLOSED]> (relay p)))
      as (_ & _ & _ & ->). }
  assert (Running
            (mkProcess (store p)
               (accept (Some c)
                  (on_close c ws (set_ws_readyState <[ws := CLOSED]> (relay p)))))
          = Running p2) as H2' by exact H2.
  injection H2' as <-.
  split_and!.
  - exact Hgone.
  - change (clients
              (accept (Some c)
                 (on_close c ws (set_ws_readyState <[ws := CLOSED]> (relay p))))
              !! c = Some {[next_ws (relay p)]}).
    rewrite accept_clients by exact (reachable_wf rv _ Hr1).
    rewrite decide_True by done. rewrite Hgone, Hnext. cbn. f_equal. set_solver.
  - pose proof (member_known _ c {[ws]} ws (reachable_wf rv p Hr) Hs Hin). lia.
Qed.

Lemma Relay_eq (r1 r2 : Relay) :
  clients r1 = clients r2 → ws_readyState r1 = ws_readyState r2 →
  sent r1 = sent r2 → listeners r1 = listeners r2 → next_ws r1 = next_ws r2 →
  r1 = r2.
Proof. destruct r1, r2. cbn. by intros -> -> -> -> ->. Qed.

(** X8.  Running the ["close"] listener of a socket a second time
    changes nothing: the socket is already out of its room, and a room
    that stayed is not deleted. *)
Theorem close_listener_is_idempotent code ws r :
  on_close code ws (on_close code ws r) = on_close code ws r.
Proof.
  destruct (on_close_fields code ws (on_close code ws r)) as (E1 & E2 & E3 & E4).
  apply Relay_eq; [|done..].
  rewrite (on_close_clients code ws (on_close code ws r)).
  rewrite (on_close_clients code ws r).
  destruct (clients r !! code) as [s|] eqn:Hs; [|by rewrite Hs].
  destruct (decide (s ∖ {[ws]} = ∅)) as [He|He].
  - by rewrite lookup_delete_eq.
  - rewrite lookup_insert_eq.
    assert (s ∖ {[ws]} ∖ {[ws]} = s ∖ {[ws]}) as -> by set_solver.
    rewrite decide_False by done. apply insert_insert_eq.
Qed.

(** X9.  A handshake with a non-empty code keeps the members the room
    already has and adds the new socket, which was no member before; the
    other rooms, what was sent, and the [readyState] of the earlier
    sockets stay as they were. *)
Theorem handshake_keeps_members rv p c s :
  reachable rv p → c ≠ "" → clients (relay p) !! c = Some s →
  clients (accept (Some c) (relay p)) !! c = Some (s ∪ {[next_ws (relay p)]})
  ∧ (next_ws (relay p) ∉ s)
  ∧ (∀ c', c' ≠ c →
       clients (accept (Some c) (relay p)) !! c' = clients (relay p) !! c')
  ∧ sent (accept (Some c) (relay p)) = sent (relay p)
  ∧ (∀ ws, ws ≠ next_ws (relay p) →
       ws_readyState (accept (Some c) (relay p)) !! ws
         = ws_readyState (relay p) !! ws).
Proof.
  intros Hr Hc Hs.
  pose proof (reachable_wf rv p Hr) as Hwf.
  split_and!.
  - rewrite accept_clients by done. rewrite decide_True by done. by rewrite Hs.
  - intros Hin. pose proof (member_known _ c s _ Hwf Hs Hin). lia.
  - intros c' Hne. rewrite accept_clients by done.
    rewrite decide_False; [done|]. intros [-> _]. done.
  - apply accept_sent.
  - intros ws Hne. by apply accept_ws_readyState.
Qed.

(** X18.  From a state the process can reach, the only event that
    changes what a socket [Y] was sent is a ["message"] of another socket
    [X] whose listeners captured the code that [Y]'s listeners captured.
    [Y] is then an open member of the room of that code and is sent
    exactly one more frame, [JSON.stringify] of the parsed message.  No
    handshake, close or HTTP request sends a frame, a socket without
    listeners is sent nothing, and no frame crosses from one room into
    another. *)
Theorem frames_come_from_own_room rv ev p p' Y :
  reachable rv p → step rv ev p = Running p' →
  frames (relay p') Y ≠ frames (relay p) Y →
  ∃ X c message data,
    ev = WsMessage X message ∧ X ≠ Y
    ∧ listeners (relay p) !! X = Some c
    ∧ listeners (relay p) !! Y = Some c
    ∧ registered_under (relay p) c Y
    ∧ ws_readyState (relay p) !! Y = Some OPEN
    ∧ JSON_parse message = Some data
    ∧ frames (relay p') Y = frames (relay p) Y ++ [JSON_stringify data].
Proof.
  intros Hr Hstep Hch.
  pose proof (reachable_wf rv p Hr) as Hwf.
  destruct (step_frames rv ev p p' Y Hstep)
    as [E|(X & m & d & -> & Hp & Hne & Hopen & E & c & HX & Hreg)]; [done|].
  exists X, c, m, d. split_and!; [done|congruence|done| |done..].
  destruct Hreg as (s & Hs & Hin). by apply (wf_members_tagged _ Hwf c s).
Qed.

End RelayExtras.

Section RelayExtrasExamples.
Import Scenario Scenario2.
#[local] Existing Instance RefJSON_JSON.

Ltac by_evaluation :=
  match goal with
  | |- ?P => apply (@bool_decide_unpack P _); vm_compute; exact I
  end.

Lemma client_2_gone_step : step rev2 (WsClose 2) serving = Running client_2_gone.
Proof.
  apply (step_close_member (J := RefJSON_JSON) rev2 serving 2 "ZZ99ZZ" {[2]}).
  - exact serving_reachable.
  - vm_compute. reflexivity.
  - set_solver.
Qed.

Lemma client_2_gone_reachable : reachable rev2 client_2_gone.
Proof.
  exact (reachable_step rev2 _ _ _ serving_reachable client_2_gone_step).
Qed.

Lemma client_3_joined_step :
  step rev2 (WsConnection (Some "ZZ99ZZ")) client_2_gone = Running client_3_joined.
Proof.
  change (Running
            (mkProcess (store client_2_gone)
               (accept (Some "ZZ99ZZ") (relay client_2_gone)))
          = Running client_3_joined).
  reflexivity.
Qed.

Lemma client_3_joined_run :
  run rev2 [WsConnection (Some "ZZ99ZZ")] client_2_gone = Running client_3_joined.
Proof.
  change (match step rev2 (WsConnection (Some "ZZ99ZZ")) client_2_gone with
          | Running p' => Running p'
          | Exited e => Exited e
          end = Running client_3_joined).
  by rewrite client_3_joined_step.
Qed.

Lemma socket_in_one_room_witness :
  "AB12CD" = "AB12CD"
  ∧ listeners (relay serving) !! 1 = Some "AB12CD"
  ∧ 1 < next_ws (relay serving).
Proof.
  apply (socket_in_one_room (J := RefJSON_JSON) rev2 serving "AB12CD" "AB12CD" 1).
  - exact serving_reachable.
  - by_evaluation.
  - by_evaluation.
Defined.

Lemma registered_sockets_are_live_witness :
  ((ws_readyState (relay serving) !! 0 = Some OPEN
    ∨ ws_readyState (relay serving) !! 0 = Some CLOSING)
   ∧ is_Some (listeners (relay serving) !! 0))
  ∧ ¬ registered (relay client_2_gone) 2.
Proof.
  split.
  - apply (registered_sockets_are_live (J := RefJSON_JSON) rev2 serving 0).
    + exact serving_reachable.
    + exists "AB12CD", {[0; 1]}. split; [vm_compute; reflexivity|by_evaluation].
  - apply (proj1 (proj2 (registered_sockets_are_live (J := RefJSON_JSON)
                           rev2 client_2_gone 2 client_2_gone_reachable))).
    vm_compute. reflexivity.
Defined.

Lemma message_skips_other_sockets_witness :
  frames notes_sent 2 = frames three_clients 2
  ∧ clients notes_sent = clients three_clients
  ∧ ws_readyState notes_sent = ws_readyState three_clients
  ∧ listeners notes_sent = listeners three_clients
  ∧ next_ws notes_sent = next_ws three_clients.
Proof.
  apply (message_skips_other_sockets (J := RefJSON_JSON)
           "AB12CD" 0 notes_frame three_clients notes_sent 2).
  - vm_compute. reflexivity.
  - right. left. by_evaluation.
Defined.

Lemma frames_keep_dispatch_order_witness :
  frames chat_sent 1
    = frames three_clients 1
        ++ [RefJSON.stringify notes_data; RefJSON.stringify chat_data].
Proof.
  apply (frames_keep_dispatch_order (J := RefJSON_JSON)
           "AB12CD" 0 0 notes_frame chat_frame notes_data chat_data
           three_clients notes_sent chat_sent 1).
  - vm_compute. reflexivity.
  - vm_compute. reflexivity.
  - vm_compute. reflexivity.
  - vm_compute. reflexivity.
  - by_evaluation.
  - lia.
  - lia.
  - vm_compute. reflexivity.
Defined.

Lemma closed_socket_is_left_alone_witness :
  ws_readyState (relay client_3_joined) !! 2 = Some CLOSED
  ∧ ¬ registered (relay client_3_joined) 2
  ∧ frames (relay client_3_joined) 2 = frames (relay client_2_gone) 2.
Proof.
  apply (closed_socket_is_left_alone (J := RefJSON_JSON) rev2 client_2_gone 2
           [WsConnection (Some "ZZ99ZZ")] client_3_joined).
  - exact client_2_gone_reachable.
  - vm_compute. reflexivity.
  - exact client_3_joined_run.
Defined.

Lemma emptied_room_starts_fresh_witness :
  clients (relay client_2_gone) !! "ZZ99ZZ" = None
  ∧ clients (relay client_3_joined) !! "ZZ99ZZ" = Some {[next_ws (relay serving)]}
  ∧ 2 ≠ next_ws (relay serving).
Proof.
  apply (emptied_room_starts_fresh (J := RefJSON_JSON) rev2 serving "ZZ99ZZ" 2
           client_2_gone client_3_joined).
  - exact serving_reachable.
  - discriminate.
  - vm_compute. reflexivity.
  - exact client_2_gone_step.
  - exact client_3_joined_step.
Defined.

Lemma handshake_keeps_members_witness :
  clients (accept (Some "AB12CD") (relay serving)) !! "AB12CD"
    = Some ({[0; 1]} ∪ {[next_ws (relay serving)]})
  ∧ (next_ws (relay serving) ∉ ({[0; 1]} : gset nat))
  ∧ (∀ c', c' ≠ "AB12CD" →
       clients (accept (Some "AB12CD") (relay serving)) !! c'
         = clients (relay serving) !! c')
  ∧ sent (accept (Some "AB12CD") (relay serving)) = sent (relay serving)
  ∧ (∀ ws, ws ≠ next_ws (relay serving) →
       ws_readyState (accept (Some "AB12CD") (relay serving)) !! ws
         = ws_readyState (relay serving) !! ws).
Proof.
  apply (handshake_keeps_members (J := RefJSON_JSON) rev2 serving "AB12CD" {[0; 1]}).
  - exact serving_reachable.
  - discriminate.
  - vm_compute. reflexivity.
Defined.

Lemma notes_served_step :
  step rev2 (WsMessage 0 notes_frame) serving = Running notes_served.
Proof. reflexivity. Qed.

Lemma frames_come_from_own_room_witness :
  ∃ X c message data,
    WsMessage 0 notes_frame = WsMessage X message ∧ X ≠ 1
    ∧ listeners (relay serving) !! X = Some c
    ∧ listeners (relay serving) !! 1 = Some c
    ∧ registered_under (relay serving) c 1
    ∧ ws_readyState (relay serving) !! 1 = Some OPEN
    ∧ RefJSON.parse message = Some data
    ∧ frames (relay notes_served) 1
      = frames (relay serving) 1 ++ [RefJSON.stringify data].
Proof.
  apply (frames_come_from_own_room (J := RefJSON_JSON) rev2
           (WsMessage 0 notes_frame) serving notes_served 1).
  - exact serving_reachable.
  - exact notes_served_step.
  - vm_compute. discriminate.
Defined.

End RelayExtrasExamples.

(** * Further properties of the snapshot API *)

Section SnapshotExtras.
Context `{J : JSON}.


Lemma console_write_fields l msg (st : Store) :
  db (console_write l msg st) = db st
  ∧ localRooms (console_write l msg st) = localRooms st
  ∧ mongoose_readyState (console_write l msg st) = mongoose_readyState st.
Proof. done. Qed.

Lemma same_elsewhere_refl code st : same_elsewhere code st st.
Proof. by split. Qed.

Lemma same_elsewhere_db code room st :
  same_elsewhere code st (set_db <[code := room]> st).
Proof.
  split; [done|]. intros c' Hne. cbn. split; [|done].
  apply lookup_insert_ne. congruence.
Qed.

Lemma same_elsewhere_local code room st :
  same_elsewhere code st (set_localRooms <[code := room]> st).
Proof.
  split; [done|]. intros c' Hne. cbn. split; [done|].
  apply lookup_insert_ne. congruence.
Qed.

(** X12.  A create or an update for one code, in either revision and
    with or without a connection, whether it succeeds or fails, leaves
    the rooms stored under every other code and the state of the
    connection as they were; a read changes nothing at all. *)
Theorem requests_touch_one_code now code mode data st :
  same_elsewhere code st (Rev1.post_rooms now code mode data st).2
  ∧ same_elsewhere code st (Rev2.post_rooms now code mode data st).2
  ∧ same_elsewhere code st (Rev1.put_rooms now code data st).2
  ∧ same_elsewhere code st (Rev2.put_rooms now code data st).2
  ∧ (Rev1.get_rooms code st).2 = st
  ∧ (Rev2.get_rooms code st).2 = st.
Proof.
  assert (∀ st1, (∃ room, st1 = set_db <[code := room]> st)
                 ∨ (∃ l msg, st1 = console_write l msg st) ∨ st1 = st
                 ∨ (∃ room, st1 = set_localRooms <[code := room]> st) →
                 same_elsewhere code st st1) as Hall.
  { intros st1 [[room ->]|[(l & msg & ->)|[->|[room ->]]]].
    - apply same_elsewhere_db.
    - by split.
    - apply same_elsewhere_refl.
    - apply same_elsewhere_local. }
  unfold Rev1.post_rooms, Rev2.post_rooms, Rev1.put_rooms, Rev2.put_rooms,
    Rev1.get_rooms, Rev2.get_rooms, Room_save, Room_findOneAndUpdate, Room_findOne.
  destruct (decide (mongoose_readyState st = connected)) as [Hc|Hc];
    destruct (decide (code = "" ∨ mode = "" ∨ JSON_is_null data = true));
    destruct (decide (is_Some (db st !! code)));
    destruct (db st !! code) as [room|];
    destruct (localRooms st !! code) as [lroom|];
    cbn; split_and!; try done; apply Hall; eauto 8.
Qed.

(** X13.  Second revision.  The database and [localRooms] are two
    stores: after a create for a so far unused, non-empty code answered
    success, a read of that code answers 404 once the state of the
    connection has flipped, from connected to not connected or the
    reverse. *)
Theorem rooms_do_not_follow_connection now code mode data st s :
  code ≠ "" → db st !! code = None → localRooms st !! code = None →
  (Rev2.post_rooms now code mode data st).1 = res_json success_true →
  (mongoose_readyState st = connected ↔ s ≠ connected) →
  (Rev2.get_rooms code
     (set_mongoose_readyState s (Rev2.post_rooms now code mode data st).2)).1
    = res_status_json 404 (error_body "Room not found").
Proof.
  intros _ Hdb Hloc Hok Hiff.
  destruct (decide (mongoose_readyState st = connected)) as [Hc|Hc].
  - assert (s ≠ connected) as Hs by (by apply Hiff).
    assert (localRooms (Rev2.post_rooms now code mode data st).2 = localRooms st)
      as El.
    { unfold Rev2.post_rooms. rewrite decide_True by done.
      by destruct (Room_save now code mode data st) as [st'|e] eqn:Hsave;
        [unfold Room_save in Hsave; repeat case_decide; simplify_eq|]. }
    unfold Rev2.get_rooms. cbn. rewrite decide_False by done.
    by rewrite El, Hloc.
  - assert (s = connected) as ->.
    { destruct (decide (s = connected)) as [|Hs]; [done|].
      apply Hiff in Hs. done. }
    rewrite fallback_post by done.
    unfold Rev2.get_rooms, Room_findOne. cbn. by rewrite Hdb.
Qed.

End SnapshotExtras.

Section SnapshotExtrasExamples.
Import Scenario Scenario2.
#[local] Existing Instance RefJSON_JSON.


Lemma rooms_do_not_follow_connection_witness :
  (Rev2.get_rooms "AB12CD"
     (set_mongoose_readyState disconnected
        (Rev2.post_rooms 10 "AB12CD" "SINGLE" data1
           (Rev2.startServer env_up ∅)).2)).1
    = res_status_json 404 (error_body "Room not found").
Proof.
  apply (rooms_do_not_follow_connection (J := RefJSON_JSON)
           10 "AB12CD" "SINGLE" data1 (Rev2.startServer env_up ∅) disconnected).
  - discriminate.
  - reflexivity.
  - reflexivity.
  - reflexivity.
  - split; [discriminate|reflexivity].
Defined.

End SnapshotExtrasExamples.

(** * The key route *)

Section ConfigKeys.

Lemma elem_of_push_if key keys x :
  x ∈ push_if key keys ↔ x ∈ keys ∨ (key = Some x ∧ x ≠ "").
Proof.
  unfold push_if. destruct key as [k|]; [|naive_solver].
  destruct (truthy (Some k)) eqn:Ht.
  - apply truthy_Some in Ht. rewrite elem_of_app, list_elem_of_singleton.
    naive_solver.
  - assert (k = "") as ->.
    { destruct (decide (k = "")) as [|Hk]; [done|].
      apply truthy_Some in Hk. congruence. }
    naive_solver.
Qed.

Lemma push_if_prefix key keys : keys `prefix_of` push_if key keys.
Proof.
  unfold push_if. destruct key as [k|]; [|done].
  destruct (truthy (Some k)); [by apply prefix_app_r|done].
Qed.

Lemma length_push_if key keys : (length (push_if key keys) ≤ S (length keys))%nat.
Proof.
  unfold push_if. destruct key as [k|]; [|lia].
  destruct (truthy (Some k)); [|lia]. rewrite length_app. cbn. lia.
Qed.

Lemma foldl_push_if (f : nat → option string) l keys :
  (∀ x, x ∈ foldl (λ keys i, push_if (f i) keys) keys l
        ↔ x ∈ keys ∨ ∃ i, i ∈ l ∧ f i = Some x ∧ x ≠ "")
  ∧ (length (foldl (λ keys i, push_if (f i) keys) keys l) ≤ length keys + length l)%nat
  ∧ keys `prefix_of` foldl (λ keys i, push_if (f i) keys) keys l.
Proof.
  revert keys. induction l as [|i l IH]; intros keys; cbn.
  - split_and!; [|lia|done]. intros x. split; [auto|].
    intros [|(i & Hi & _)]; [done|]. by apply elem_of_nil in Hi.
  - destruct (IH (push_if (f i) keys)) as (Hin & Hlen & Hpre).
    split_and!.
    + intros x. rewrite Hin, elem_of_push_if. split.
      * intros [[|[]]|(j & Hj & Hf & Hx)]; [by left|right..].
        -- exists i. split_and!; [left|done..].
        -- exists j. split_and!; [by right|done..].
      * intros [|(j & Hj & Hf & Hx)]; [by left; left|].
        apply elem_of_cons in Hj as [->|Hj]; [by left; right|].
        right. by exists j.
    + pose proof (length_push_if (f i) keys). lia.
    + etransitivity; [apply push_if_prefix|done].
Qed.

Lemma numbered_key_Some env i x :
  numbered_key env i = Some x ∧ x ≠ ""
  ↔ x ≠ ""
    ∧ (env !! ("GEMINI_API_KEY_" ++ pretty i)%string = Some x
       ∨ (truthy (env !! ("GEMINI_API_KEY_" ++ pretty i)%string) = false
          ∧ env !! ("VITE_GEMINI_API_KEY_" ++ pretty i)%string = Some x)).
Proof.
  unfold numbered_key, or_else.
  destruct (truthy (env !! ("GEMINI_API_KEY_" ++ pretty i)%string)) eqn:Ht.
  - split; [intros [? ?]; auto|].
    intros [Hx [?|[? _]]]; [done|congruence].
  - split; [intros [? ?]; auto|].
    intros [Hx [Hp|[_ ?]]]; [|done].
    rewrite Hp in Ht. apply truthy_Some in Hx. congruence.
Qed.

Lemma collected_keys_spec env :
  (∀ x, x ∈ collected_keys env
        ↔ x ≠ ""
          ∧ (env !! "GEMINI_API_KEY" = Some x
             ∨ ∃ i, (1 ≤ i ≤ 20)%nat
                 ∧ (env !! ("GEMINI_API_KEY_" ++ pretty i)%string = Some x
                    ∨ (truthy (env !! ("GEMINI_API_KEY_" ++ pretty i)%string) = false
                       ∧ env !! ("VITE_GEMINI_API_KEY_" ++ pretty i)%string
                         = Some x))))
  ∧ (length (collected_keys env) ≤ 21)%nat
  ∧ push_if (env !! "GEMINI_API_KEY") [] `prefix_of` collected_keys env.
Proof.
  unfold collected_keys.
  destruct (foldl_push_if (numbered_key env) (seq 1 20)
              (push_if (env !! "GEMINI_API_KEY") [])) as (Hin & Hlen & Hpre).
  split_and!; [|
    pose proof (length_push_if (env !! "GEMINI_API_KEY") []);
    rewrite length_seq in Hlen; cbn in *; lia|done].
  intros x. rewrite Hin, elem_of_push_if. split.
  - intros [[Hn|[Hm Hx]]|(i & Hi & Hk)]; [by apply elem_of_nil in Hn|by auto|].
    apply elem_of_seq in Hi. apply numbered_key_Some in Hk as [Hx Hk].
    split; [done|]. right. exists i. split; [lia|done].
  - intros [Hx [Hm|(i & Hi & Hk)]]; [by left; right|].
    right. exists i. split; [apply elem_of_seq; lia|].
    by apply numbered_key_Some.
Qed.

Lemma foldl_Set_add acc l :
  NoDup acc →
  NoDup (foldl Set_add acc l)
  ∧ (∀ x, x ∈ foldl Set_add acc l ↔ x ∈ acc ∨ x ∈ l)
  ∧ (length (foldl Set_add acc l) ≤ length acc + length l)%nat
  ∧ acc `prefix_of` foldl Set_add acc l.
Proof.
  revert acc. induction l as [|y l IH]; intros acc Hnd; cbn.
  - split_and!; [done| |lia|done]. intros x. rewrite elem_of_nil. tauto.
  - assert (NoDup (Set_add acc y)) as Hnd'.
    { unfold Set_add. case_decide; [done|].
      apply NoDup_app. split_and!; [done| |apply NoDup_singleton].
      intros x Hx Hy. apply list_elem_of_singleton in Hy. by subst. }
    assert (∀ x, x ∈ Set_add acc y ↔ x ∈ acc ∨ x = y) as Hadd.
    { intros x. unfold Set_add. case_decide.
      - naive_solver.
      - rewrite elem_of_app, list_elem_of_singleton. tauto. }
    assert (length (Set_add acc y) ≤ S (length acc))%nat as Hlen.
    { unfold Set_add. case_decide; [lia|]. rewrite length_app. cbn. lia. }
    assert (acc `prefix_of` Set_add acc y) as Hpre.
    { unfold Set_add. case_decide; [done|by apply prefix_app_r]. }
    destruct (IH (Set_add acc y) Hnd') as (H1 & H2 & H3 & H4).
    split_and!; [done| |lia|by etransitivity].
    intros x. rewrite H2, Hadd, elem_of_cons. tauto.
Qed.

Lemma Array_from_Set_spec l :
  NoDup (Array_from_Set l)
  ∧ (∀ x, x ∈ Array_from_Set l ↔ x ∈ l)
  ∧ (length (Array_from_Set l) ≤ length l)%nat.
Proof.
  destruct (foldl_Set_add [] l (NoDup_nil_2)) as (H1 & H2 & H3 & _).
  split_and!; [done| |done].
  intros x. rewrite (H2 x), elem_of_nil. tauto.
Qed.

Variable trim : string → string.

(** X14.  The keys of the response hold no key twice and at most 21
    keys.  A string is among them exactly when it is not empty, is not
    blank after trimming, and is the value of [GEMINI_API_KEY], of a
    [GEMINI_API_KEY_i] with [i] from 1 to 20, or of a
    [VITE_GEMINI_API_KEY_i] whose [GEMINI_API_KEY_i] is unset or empty. *)
Theorem config_keys_are_clean env :
  NoDup (config_keys trim env)
  ∧ (length (config_keys trim env) ≤ 21)%nat
  ∧ ∀ k, k ∈ config_keys trim env
         ↔ k ≠ "" ∧ trim k ≠ ""
           ∧ (env !! "GEMINI_API_KEY" = Some k
              ∨ ∃ i, (1 ≤ i ≤ 20)%nat
                  ∧ (env !! ("GEMINI_API_KEY_" ++ pretty i)%string = Some k
                     ∨ (truthy (env !! ("GEMINI_API_KEY_" ++ pretty i)%string)
                          = false
                        ∧ env !! ("VITE_GEMINI_API_KEY_" ++ pretty i)%string
                          = Some k))).
Proof.
  unfold config_keys.
  destruct (Array_from_Set_spec (filter (λ k, trim k ≠ "") (collected_keys env)))
    as (Hnd & Hin & Hlen).
  destruct (collected_keys_spec env) as (Hcol & Hclen & _).
  split_and!; [done| |].
  - pose proof (length_filter (λ k, trim k ≠ "") (collected_keys env)). lia.
  - intros k. rewrite Hin, list_elem_of_filter, Hcol. tauto.
Qed.

(** X15.  When [GEMINI_API_KEY] is set to a key that is not blank, it is
    the first key of the response. *)
Theorem main_key_comes_first env k :
  env !! "GEMINI_API_KEY" = Some k → k ≠ "" → trim k ≠ "" →
  head (config_keys trim env) = Some k.
Proof.
  intros Hk Hne Ht.
  destruct (collected_keys_spec env) as (_ & _ & Hpre).
  assert (push_if (env !! "GEMINI_API_KEY") [] = [k]) as E.
  { rewrite Hk. unfold push_if. apply truthy_Some in Hne. by rewrite Hne. }
  rewrite E in Hpre. destruct Hpre as [rest Hrest].
  unfold config_keys. rewrite Hrest.
  change ([k] ++ rest) with (k :: rest).
  rewrite filter_cons_True by done.
  unfold Array_from_Set.
  change (foldl Set_add [] (k :: filter (λ k0, trim k0 ≠ "") rest))
    with (foldl Set_add (Set_add [] k) (filter (λ k0, trim k0 ≠ "") rest)).
  assert (NoDup (Set_add [] k)) as Hnd.
  { unfold Set_add. cbn. apply NoDup_singleton. }
  destruct (foldl_Set_add (Set_add [] k) (filter (λ k0, trim k0 ≠ "") rest) Hnd)
    as (_ & _ & _ & [tl ->]).
  done.
Qed.

End ConfigKeys.

Section ConfigKeysExamples.
Import Scenario2.

Lemma main_key_comes_first_witness :
  head (config_keys ascii_trim key_env) = Some "k-main".
Proof.
  apply (main_key_comes_first ascii_trim key_env "k-main").
  - vm_compute. reflexivity.
  - discriminate.
  - vm_compute. discriminate.
Defined.

(** The repeated key is listed once, the blank [GEMINI_API_KEY_2] hides
    [VITE_GEMINI_API_KEY_2], and [GEMINI_API_KEY_21] is not read. *)
Example config_keys_of_key_env :
  config_keys ascii_trim key_env = ["k-main"; "k-three"].
Proof. vm_compute. reflexivity. Qed.

End ConfigKeysExamples.

(** * The client *)

Section Client.

Lemma includes_true players x : includes players x = true ↔ x ∈ players.
Proof. unfold includes. apply bool_decide_eq_true. Qed.

Lemma includes_false players x : includes players x = false ↔ x ∉ players.
Proof. unfold includes. apply bool_decide_eq_false. Qed.

Lemma join_room_member mode players myPlayerId :
  myPlayerId ∈ players → join_room mode players myPlayerId = Joined players.
Proof.
  intros Hin. apply includes_true in Hin. unfold join_room. rewrite Hin.
  cbn. by rewrite !andb_false_r.
Qed.

(** X16.  When the occupancy check of [joinRoom] lets a player in, the
    player is in the new list, the players of the room keep their places,
    a list without repetitions stays so, a [SINGLE] room with at most one
    player and a [COOP] room with at most two stay within that bound, and
    joining again with the new list changes nothing. *)
Theorem join_room_admits_within_bounds mode players myPlayerId updatedPlayers :
  join_room mode players myPlayerId = Joined updatedPlayers →
  myPlayerId ∈ updatedPlayers
  ∧ players `prefix_of` updatedPlayers
  ∧ (NoDup players → NoDup updatedPlayers)
  ∧ (mode = "SINGLE" → (length players ≤ 1)%nat →
     (length updatedPlayers ≤ 1)%nat)
  ∧ (mode = "COOP" → (length players ≤ 2)%nat →
     (length updatedPlayers ≤ 2)%nat)
  ∧ join_room mode updatedPlayers myPlayerId = Joined updatedPlayers.
Proof.
  intros H. unfold join_room in H.
  destruct (includes players myPlayerId) eqn:Hinc.
  - cbn [negb] in H. rewrite !andb_false_r in H. injection H as <-.
    apply includes_true in Hinc.
    split_and!; [done..|]. by apply join_room_member.
  - cbn [negb] in H. rewrite !andb_true_r in H. apply includes_false in Hinc.
    destruct (String.eqb mode "SINGLE" && (1 <=? length players)%nat) eqn:B1;
      [done|].
    destruct (String.eqb mode "COOP" && (2 <=? length players)%nat) eqn:B2;
      [done|].
    injection H as <-.
    apply andb_false_iff in B1. apply andb_false_iff in B2.
    split_and!.
    + set_solver.
    + by apply prefix_app_r.
    + intros Hnd. apply NoDup_app. split_and!; [done|set_solver|].
      apply NoDup_singleton.
    + intros -> Hl. rewrite length_app. cbn.
      destruct B1 as [B1|B1]; [done|]. apply Nat.leb_gt in B1. lia.
    + intros -> Hl. rewrite length_app. cbn.
      destruct B2 as [B2|B2]; [done|]. apply Nat.leb_gt in B2. lia.
    + apply join_room_member. set_solver.
Qed.

Lemma find_id_Some suspects accused s :
  List.find (λ s, String.eqb (id s) accused) suspects = Some s →
  s ∈ suspects ∧ id s = accused.
Proof.
  intros Hf. apply find_some in Hf as [Hin Heq].
  split; [by apply list_elem_of_In|by apply String.eqb_eq].
Qed.

Lemma find_id_unique suspects accused s :
  NoDup (id <$> suspects) → s ∈ suspects → id s = accused →
  List.find (λ s, String.eqb (id s) accused) suspects = Some s.
Proof.
  induction suspects as [|s0 l IH]; intros Hnd Hin Hid.
  - by apply elem_of_nil in Hin.
  - cbn. apply NoDup_cons in Hnd as [Hnot Hnd].
    apply elem_of_cons in Hin as [->|Hin].
    + apply String.eqb_eq in Hid. by rewrite Hid.
    + destruct (String.eqb (id s0) accused) eqn:E; [|by apply IH].
      apply String.eqb_eq in E. exfalso. apply Hnot.
      apply list_elem_of_fmap. exists s. split; [congruence|done].
Qed.

(** X17.  [isCorrect] is false for an id that no suspect carries.  When
    the ids of the suspects are distinct, it is true exactly when the
    accused suspect is a culprit. *)
Theorem accusation_is_correct_iff suspects unknownId accusedSuspectId :
  (∀ s, s ∈ suspects → id s ≠ unknownId) →
  isCorrect suspects unknownId = false
  ∧ (NoDup (id <$> suspects) →
     (isCorrect suspects accusedSuspectId = true
      ↔ ∃ s, s ∈ suspects ∧ id s = accusedSuspectId ∧ isCulprit s = true)).
Proof.
  intros Hno. split.
  - unfold isCorrect.
    destruct (List.find _ suspects) as [s|] eqn:Hf; [|done].
    destruct (find_id_Some _ _ _ Hf) as [Hin Hid]. by destruct (Hno s Hin).
  - intros Hnd. unfold isCorrect.
    destruct (List.find _ suspects) as [s|] eqn:Hf.
    + destruct (find_id_Some _ _ _ Hf) as [Hin Hid].
      split; [by exists s|].
      intros (s' & Hin' & Hid' & Hc).
      rewrite (find_id_unique _ _ s' Hnd Hin' Hid') in Hf. congruence.
    + split; [done|].
      intros (s' & Hin' & Hid' & _).
      by rewrite (find_id_unique _ _ s' Hnd Hin' Hid') in Hf.
Qed.

End Client.

Section ClientExamples.
Import Scenario2.

Lemma join_room_admits_within_bounds_witness :
  "p2" ∈ ["p1"; "p2"]
  ∧ ["p1"] `prefix_of` ["p1"; "p2"]
  ∧ (NoDup ["p1"] → NoDup ["p1"; "p2"])
  ∧ ("COOP" = "SINGLE" → (length ["p1"] ≤ 1)%nat →
     (length ["p1"; "p2"] ≤ 1)%nat)
  ∧ ("COOP" = "COOP" → (length ["p1"] ≤ 2)%nat →
     (length ["p1"; "p2"] ≤ 2)%nat)
  ∧ join_room "COOP" ["p1"; "p2"] "p2" = Joined ["p1"; "p2"].
Proof.
  apply (join_room_admits_within_bounds "COOP" ["p1"] "p2" ["p1"; "p2"]).
  vm_compute. reflexivity.
Defined.

(** A third player is turned away from a full [COOP] room and a second
    from a [SINGLE] room; a room of any other mode has no limit. *)
Example join_room_limits :
  join_room "COOP" ["p1"; "p2"] "p3" = RoomFull
  ∧ join_room "SINGLE" ["p1"] "p2" = SingleOccupied
  ∧ join_room "coop" ["p1"; "p2"] "p3" = Joined ["p1"; "p2"; "p3"].
Proof. vm_compute. repeat split; reflexivity. Qed.

Lemma accusation_is_correct_iff_witness :
  isCorrect suspects4 "s9" = false
  ∧ (isCorrect suspects4 "s2" = true
     ↔ ∃ s, s ∈ suspects4 ∧ id s = "s2" ∧ isCulprit s = true).
Proof.
  destruct (accusation_is_correct_iff suspects4 "s9" "s2") as [Hunknown Hiff].
  - intros s Hin. vm_compute in Hin.
    repeat (apply elem_of_cons in Hin as [->|Hin]; [discriminate|]).
    by apply elem_of_nil in Hin.
  - split; [exact Hunknown|]. apply Hiff.
    vm_compute. repeat constructor; set_solver.
Defined.

End ClientExamples.
